(** * go-sdk: batch metadata resolution and signer handling

    A shallow embedding of [pkg/thirdweb/erc1155.go] and
    [nftlabs/erc721.go].  The generated contract bindings, the storage
    gateway and go-ethereum are collaborators: their answers are the
    fields of a record, every operation is a function of that record, and
    every call to a collaborator is written to a trace. *)

From stdpp Require Import base numbers list list_numbers sorting strings.

Local Open Scope Z_scope.

(** ** Go preliminaries *)

Module Go.

(** Two's-complement reading of a 64-bit pattern, Go's [int64(uint64)]
    conversion. *)
Definition wrap64 (z : Z) : Z := (z + 2 ^ 63) `mod` 2 ^ 64 - 2 ^ 63.

(** [Int64] of [math/big]'s [Int]:
    [v := int64(low64(x.abs)); if x.neg { v = -v }; return v]. *)
Definition Int64 (x : Z) : Z :=
  let v := wrap64 (Z.abs x `mod` 2 ^ 64) in
  if bool_decide (x < 0) then wrap64 (- v) else v.

(** [int(...)] of an [int64]; [int] is 64 bits wide on the platforms the
    SDK is built for, so the conversion keeps the value. *)
Definition int (x : Z) : Z := x.

(** [sort.SliceStable]: the sorted permutation of the slice in which
    elements that [less] does not separate keep their original order.  An
    insertion sort that puts an element in front of the first one that is
    not smaller computes it. *)
Section SliceStable.
Context {A : Type} (less : A → A → bool).

Fixpoint insert (x : A) (l : list A) : list A :=
  match l with
  | [] => [x]
  | y :: l' => if less y x then y :: insert x l' else x :: y :: l'
  end.

Definition SliceStable (l : list A) : list A := foldr insert [] l.
End SliceStable.

(** A Go function either returns or panics. *)
Inductive outcome (A : Type) : Type :=
| Returns (a : A)
| Panics.
Global Arguments Returns {A} a.
Global Arguments Panics {A}.

End Go.

(** ** pkg/thirdweb/erc1155.go *)

Module thirdweb.

Import Go.

(** Go's [error] values: the package's own [NotFoundError] and whatever a
    collaborator hands back. *)
Inductive error : Type :=
| NotFoundError (tokenId : Z)
| External (msg : string).

(** A Go [(value, error)] pair. *)
Inductive res (A : Type) : Type :=
| Ok (a : A)
| Err (e : error).
Global Arguments Ok {A} a.
Global Arguments Err {A} e.

Definition is_Ok {A} (r : res A) : Prop := ∃ a, r = Ok a.
Definition is_Err {A} (r : res A) : Prop := ∃ e, r = Err e.

(** Modelled from the spec: [NFTMetadata] is declared outside src/; the
    spec gives it an id, a name, a description and an image reference.
    [Id] is a [*big.Int] in the source ([Metadata.Id.Cmp]). *)
Record NFTMetadata : Type := {
  Id : Z;
  Name : string;
  Description : string;
  Image : string
}.

(** [EditionMetadata] and [EditionMetadataOwner], with the fields the
    source assigns. *)
Record EditionMetadata : Type := {
  Metadata : NFTMetadata;
  Supply : Z
}.

Record EditionMetadataOwner : Type := {
  OMetadata : NFTMetadata;
  OSupply : Z;
  Owner : string;
  QuantityOwned : Z
}.

Record EditionResult : Type := {
  nft : option EditionMetadata;
  err : option error
}.

Section Collaborators.

(** go-ethereum's [common.Address], [types.Transaction], [common.Hash]
    and [bind.TransactOpts]. *)
Context {Address Transaction Hash TransactOpts : Type}.

(** Calls that leave the process, and the worker's [fmt.Println]. *)
Inductive Event : Type :=
| CallTotalSupply (id : Z)
| CallUri (id : Z)
| CallNextTokenIdToMint
| CallBalanceOfBatch (owners : list Address) (ids : list Z)
| CallFetchTokenMetadata (tokenId : Z) (uri : string)
| CallSafeTransferFrom (from to : Address) (id amount : Z)
| CallBurn (account : Address) (id amount : Z)
| CallSetApprovalForAll (operator : Address) (approved : bool)
| CallAwaitTx (h : Hash)
| Println (e : error).

(** What the collaborators answer.  Reads of the chain and of the store
    are functions of their arguments: one operation asks each question
    once. *)
Record World : Type := {
  (* abi.TokenERC1155 *)
  abi_TotalSupply : Z → res Z;
  abi_Uri : Z → res string;
  abi_NextTokenIdToMint : res Z;
  abi_BalanceOfBatch : list Address → list Z → res (list Z);
  abi_SafeTransferFrom : TransactOpts → Address → Address → Z → Z → res Transaction;
  abi_Burn : TransactOpts → Address → Z → Z → res Transaction;
  abi_SetApprovalForAll : TransactOpts → Address → bool → res Transaction;
  (* ContractWrapper *)
  GetSignerAddress : Address;
  getTxOptions : TransactOpts;
  awaitTx : Hash → res Transaction;
  (* nft helper of the package, outside src/ *)
  fetchTokenMetadata : Z → string → res NFTMetadata;
  (* go-ethereum *)
  HexToAddress : string → Address;
  AddressString : Address → string;
  TxHash : Transaction → Hash
}.

(** *** Traced computations *)

Definition Run (A : Type) : Type := list Event * A.

Definition ret {A} (a : A) : Run A := ([], a).
Definition bind {A B} (m : Run A) (k : A → Run B) : Run B :=
  let (t1, a) := m in let (t2, b) := k a in (t1 ++ t2, b).
Definition call {A} (e : Event) (answer : A) : Run A := ([e], answer).

Definition trace {A} (m : Run A) : list Event := fst m.
Definition result {A} (m : Run A) : A := snd m.

Notation "x <~ m ;; k" := (bind m (fun x => k))
  (at level 100, m at next level, k at level 200, right associativity).

Fixpoint mapRun {A B} (f : A → Run B) (l : list A) : Run (list B) :=
  match l with
  | [] => ret []
  | x :: l' => y <~ f x ;; ys <~ mapRun f l' ;; ret (y :: ys)
  end.

Variable w : World.

(** *** getTokenMetadata *)
Definition getTokenMetadata (tokenId : Z) : Run (res NFTMetadata) :=
  r <~ call (CallUri tokenId) (abi_Uri w tokenId) ;;
  match r with
  | Err _ => ret (Err (NotFoundError tokenId))
  | Ok uri =>
      r' <~ call (CallFetchTokenMetadata tokenId uri)
                (fetchTokenMetadata w tokenId uri) ;;
      match r' with
      | Err e => ret (Err e)
      | Ok nft => ret (Ok nft)
      end
  end.

(** *** Get *)
Definition Get (tokenId : Z) : Run (res EditionMetadata) :=
  r <~ call (CallTotalSupply tokenId) (abi_TotalSupply w tokenId) ;;
  let supply := match r with
                | Ok totalSupply => int (Int64 totalSupply)
                | Err _ => 0
                end in
  m <~ getTokenMetadata tokenId ;;
  match m with
  | Err e => ret (Err e)
  | Ok metadata => ret (Ok {| Metadata := metadata; Supply := supply |})
  end.

(** *** fetchEditionsByTokenId *)

(** The goroutine body.  *)
Definition worker (id : Z) : Run EditionResult :=
  r <~ Get id ;;
  match r with
  | Ok nft => ret {| nft := Some nft; err := None |}
  | Err e => ([Println e], {| nft := None; err := Some e |})
  end.

(** [for i := 0; i < total; i++ { go func(id int) {...}(i) }]: the
    arguments of the goroutines, in launch order. *)
Definition launch (total : nat) : list Z := seqZ 0 (Z.of_nat total).

(** The channel hands the results over in completion order, which the
    scheduler picks: any rearrangement of the launched units. *)
Definition schedule (sched : list Z → list Z) : Prop := ∀ l, sched l ≡ₚ l.

(** [nfts[i].Metadata.Id.Cmp(nfts[j].Metadata.Id) < 0] *)
Definition less (a b : EditionMetadata) : bool :=
  bool_decide (Id (Metadata a) < Id (Metadata b)).

(** The trace lists the units' calls unit by unit in completion order;
    the calls of different units may interleave in a real run, which
    changes neither which calls are made nor their answers. *)
Definition fetchEditionsByTokenId (tokenIds : list Z) (sched : list Z → list Z)
  : Run (res (list EditionMetadata)) :=
  let total := length tokenIds in
  results <~ mapRun worker (sched (launch total)) ;;
  let nfts := omap nft results in
  ret (Ok (SliceStable less nfts)).

(** *** GetTotalCount and GetAll *)
Definition GetTotalCount : Run (res Z) :=
  call CallNextTokenIdToMint (abi_NextTokenIdToMint w).

(** [for i := 0; i < n; i++ { ids = append(ids, big.NewInt(int64(i))) }] *)
Definition upto (n : Z) : list Z := seqZ 0 n.

Definition GetAll (sched : list Z → list Z) : Run (res (list EditionMetadata)) :=
  r <~ GetTotalCount ;;
  match r with
  | Err e => ret (Err e)
  | Ok totalCount =>
      let tokenIds := upto (int (Int64 totalCount)) in
      fetchEditionsByTokenId tokenIds sched
  end.

(** *** GetOwned *)

(** The first statement of [GetOwned]: an empty [address] is replaced by
    the signer's. *)
Definition ownerOf (address : string) : string :=
  if bool_decide (address = EmptyString)
  then AddressString w (GetSignerAddress w)
  else address.

(** [for index, balance := range balances { ... ids[index] ... }]:
    [index] counts the entries already visited, [metadatas] is the slice
    built so far.  Indexing [ids] past its end panics. *)
Fixpoint ownedLoop (address : string) (ids : list Z) (index : nat)
    (balances : list Z) (metadatas : list EditionMetadataOwner)
  : Run (outcome (list EditionMetadataOwner)) :=
  match balances with
  | [] => ret (Returns metadatas)
  | balance :: rest =>
      match ids !! index with
      | None => ret Panics
      | Some id =>
          r <~ Get (int (Int64 id)) ;;
          match r with
          | Ok metadata =>
              let metadataOwner :=
                {| OMetadata := Metadata metadata;
                   OSupply := Supply metadata;
                   Owner := address;
                   QuantityOwned := int (Int64 balance) |} in
              ownedLoop address ids (S index) rest (metadatas ++ [metadataOwner])
          | Err _ => ownedLoop address ids (S index) rest metadatas
          end
      end
  end.

Definition GetOwned (address : string)
  : Run (outcome (res (list EditionMetadataOwner))) :=
  let address := ownerOf address in
  r <~ call CallNextTokenIdToMint (abi_NextTokenIdToMint w) ;;
  match r with
  | Err e => ret (Returns (Err e))
  | Ok maxId =>
      let ids := upto (int (Int64 maxId)) in
      let owners := (λ _, HexToAddress w address) <$> ids in
      r' <~ call (CallBalanceOfBatch owners ids) (abi_BalanceOfBatch w owners ids) ;;
      match r' with
      | Err e => ret (Returns (Err e))
      | Ok balances =>
          o <~ ownedLoop address ids 0 balances [] ;;
          match o with
          | Panics => ret Panics
          | Returns metadatas => ret (Returns (Ok metadatas))
          end
      end
  end.

(** *** Transfer, Burn, SetApprovalForAll *)

Definition await (r : res Transaction) : Run (res Transaction) :=
  match r with
  | Err e => ret (Err e)
  | Ok tx => call (CallAwaitTx (TxHash w tx)) (awaitTx w (TxHash w tx))
  end.

Definition Transfer (to : string) (tokenId amount : Z) : Run (res Transaction) :=
  let opts := getTxOptions w in
  let from := GetSignerAddress w in
  let to' := HexToAddress w to in
  r <~ call (CallSafeTransferFrom from to' tokenId amount)
            (abi_SafeTransferFrom w opts from to' tokenId amount) ;;
  await r.

Definition Burn (tokenId amount : Z) : Run (res Transaction) :=
  let address := GetSignerAddress w in
  r <~ call (CallBurn address tokenId amount)
            (abi_Burn w (getTxOptions w) address tokenId amount) ;;
  await r.

Definition SetApprovalForAll (operator : string) (approved : bool)
  : Run (res Transaction) :=
  let operator' := HexToAddress w operator in
  r <~ call (CallSetApprovalForAll operator' approved)
            (abi_SetApprovalForAll w (getTxOptions w) operator' approved) ;;
  await r.

(** *** Vocabulary of the statements *)

(** What resolving [id] yields: the edition when [Get] succeeds. *)
Definition resolved (id : Z) : option EditionMetadata :=
  match result (Get id) with
  | Ok nft => Some nft
  | Err _ => None
  end.

(** The helper [fetchTokenMetadata] is outside src/.  The statements that
    talk about the ids of the output assume of it what the spec says of
    the resolver: the metadata it builds carries the requested id. *)
Definition tags_id : Prop :=
  ∀ tokenId uri nft, fetchTokenMetadata w tokenId uri = Ok nft → Id nft = tokenId.

Definition tokenIdOf (nft : EditionMetadata) : Z := Id (Metadata nft).

(** The item [GetOwned] builds from one entry of the balance response. *)
Definition ownedItem (address : string) (entry : Z * Z)
  : option EditionMetadataOwner :=
  match result (Get (int (Int64 entry.1))) with
  | Ok metadata =>
      Some {| OMetadata := Metadata metadata;
              OSupply := Supply metadata;
              Owner := address;
              QuantityOwned := int (Int64 entry.2) |}
  | Err _ => None
  end.

(** The item the specification describes for the entry [(id, balance)]:
    the resolved edition of [id] with the balance as the quantity. *)
Definition ownedItem_spec (address : string) (entry : Z * Z)
  : option EditionMetadataOwner :=
  nft ← resolved entry.1;
  Some {| OMetadata := Metadata nft;
          OSupply := Supply nft;
          Owner := address;
          QuantityOwned := entry.2 |}.

End Collaborators.

Global Arguments Event : clear implicits.
Global Arguments bind : simpl never.
Global Arguments call : simpl never.
Global Arguments ret : simpl never.
Global Arguments trace : simpl never.
Global Arguments result : simpl never.
Global Arguments World : clear implicits.
Global Arguments Run : clear implicits.

End thirdweb.

(** ** nftlabs/erc721.go *)

Module nftlabs.

Import Go.

Section Signer.

(** [ecdsa.PrivateKey], [common.Address] and [types.Transaction]. *)
Context {PrivateKey Address Transaction : Type}.

Inductive error : Type :=
| NoSignerError (typeName : string) (Err : string)
| External (msg : string).

Inductive res (A : Type) : Type :=
| Ok (a : A)
| Err (e : error).
Global Arguments Ok {A} a.
Global Arguments Err {A} e.

(** The fields of [erc721SdkModule] that the signer code reads and
    writes; a nil [privateKey] is [None]. *)
Record erc721SdkModule : Type := {
  ModuleAddress : string;
  privateKey : option PrivateKey;
  signerAddress : Address
}.

Inductive Event : Type :=
| CallChainID.

(** [processPrivateKey] is declared outside src/ and fails with an error
    message or yields the key and its address; [ChainID] is the client's
    answer with the error dropped ([chainId, _ := ...]); [SignTx] is
    go-ethereum's, applied to the transaction, the chain id of the
    EIP-155 signer and the key. *)
Record World : Type := {
  processPrivateKey : string → string + (PrivateKey * Address);
  ChainID : option Z;
  SignTx : Transaction → option Z → option PrivateKey → res Transaction
}.

Variable w : World.

Definition SetPrivateKey (sdk : erc721SdkModule) (key : string)
  : erc721SdkModule * option error :=
  match processPrivateKey w key with
  | inl err => (sdk, Some (NoSignerError "erc721" err))
  | inr (pKey, publicAddress) =>
      ({| ModuleAddress := ModuleAddress sdk;
          privateKey := Some pKey;
          signerAddress := publicAddress |}, None)
  end.

Definition getSigner (sdk : erc721SdkModule)
  : Address → Transaction → list Event * res Transaction :=
  λ address transaction,
    let chainId := ChainID w in
    ([CallChainID], SignTx w transaction chainId (privateKey sdk)).

End Signer.

Global Arguments World : clear implicits.
Global Arguments erc721SdkModule : clear implicits.

End nftlabs.

(** ** Concrete collaborators

    Small chains and stores on which the operations are run. *)

Module Fixtures.

Import Go thirdweb.

Definition Chain : Type := World string string string unit.

Definition uriOf (id : Z) : res string :=
  match id with
  | 0 => Ok "ipfs://a"
  | 1 => Ok "ipfs://b"
  | 2 => Ok "ipfs://c"
  | 5 => Ok "ipfs://f"
  | _ => Err (External "execution reverted")
  end.

(** A store that is unreachable for the ids in [failing] and otherwise
    builds the document of the requested token. *)
Definition fetchFrom (failing : list Z) (tokenId : Z) (uri : string)
  : res NFTMetadata :=
  if bool_decide (tokenId ∈ failing)
  then Err (External "gateway timeout")
  else Ok {| Id := tokenId; Name := uri; Description := uri; Image := uri |}.

Definition chain (supply : Z → res Z) (count : res Z)
    (balances : res (list Z)) (failing : list Z) : Chain :=
  {| abi_TotalSupply := supply;
     abi_Uri := uriOf;
     abi_NextTokenIdToMint := count;
     abi_BalanceOfBatch := λ _ _, balances;
     abi_SafeTransferFrom := λ _ _ _ _ _, Err (External "no signer");
     abi_Burn := λ _ _ _ _, Err (External "no signer");
     abi_SetApprovalForAll := λ _ _ _, Err (External "no signer");
     GetSignerAddress := "0x00000000000000000000000000000000000000A1";
     getTxOptions := ();
     awaitTx := λ h, Ok h;
     fetchTokenMetadata := fetchFrom failing;
     HexToAddress := λ s, s;
     AddressString := λ a, a;
     TxHash := λ tx, tx |}.

(** Three minted tokens, ten copies each; the signer holds 5, 0 and 7. *)
Definition healthy : Chain :=
  chain (λ _, Ok 10) (Ok 3) (Ok [5; 0; 7]) [].

(** The same chain with the document of token 1 unreachable. *)
Definition flaky : Chain :=
  chain (λ _, Ok 10) (Ok 3) (Ok [5; 0; 7]) [1].

(** No document is reachable. *)
Definition dark : Chain :=
  chain (λ _, Ok 10) (Ok 3) (Ok [5; 0; 7]) [0; 1; 2].

(** The supply read fails, everything else answers. *)
Definition noSupply : Chain :=
  chain (λ _, Err (External "rpc unavailable")) (Ok 3) (Ok [5; 0; 7]) [].

(** One token, of which the owner holds 2^63 copies. *)
Definition whale : Chain :=
  chain (λ _, Ok (2 ^ 63)) (Ok 1) (Ok [2 ^ 63]) [].

(** One token, but the balance query answers with two entries. *)
Definition chatty : Chain :=
  chain (λ _, Ok 10) (Ok 1) (Ok [5; 6]) [].

Definition edition (id : Z) (uri : string) (supply : Z) : EditionMetadata :=
  {| Metadata := {| Id := id; Name := uri; Description := uri; Image := uri |};
     Supply := supply |}.

(** An ERC-721 module on which [SetPrivateKey] was never called, and a
    client whose transaction signer rejects a missing key. *)
Definition Client : Type := nftlabs.World string string string.

Definition client : Client :=
  {| nftlabs.processPrivateKey := λ key,
       if bool_decide (key = "c0ffee") then inr ("c0ffee", "0xA1")
       else inl "invalid hex character";
     nftlabs.ChainID := Some 137;
     nftlabs.SignTx := λ tx chainId key,
       match key with
       | Some k => nftlabs.Ok (tx +:+ "|signed:" +:+ k)
       | None => nftlabs.Err (nftlabs.External "missing key")
       end |}.

Definition keyless : nftlabs.erc721SdkModule string string :=
  {| nftlabs.ModuleAddress := "0xC0";
     nftlabs.privateKey := None;
     nftlabs.signerAddress := "0x00" |}.

End Fixtures.

(** ** Further operations of the two files *)

Module erc1155.

Import Go thirdweb.

Section Reads.

Context {Address Transaction Hash TransactOpts : Type}.
Variable w : World Address Transaction Hash TransactOpts.

(** *** GetTotalSupply *)
Definition GetTotalSupply (tokenId : Z) : Run Address Hash (res Z) :=
  call (CallTotalSupply tokenId) (abi_TotalSupply w tokenId).

(** *** Reading a trace *)

(** The token asked for by a read of the content URI, of the supply, and
    the error written by [fmt.Println]. *)
Definition uriCall (e : Event Address Hash) : option Z :=
  match e with CallUri id => Some id | _ => None end.

Definition supplyCall (e : Event Address Hash) : option Z :=
  match e with CallTotalSupply id => Some id | _ => None end.

Definition printed (e : Event Address Hash) : option error :=
  match e with Println err => Some err | _ => None end.

(** The error with which resolving [id] fails. *)
Definition failure (id : Z) : option error :=
  match result (Get w id) with
  | Ok _ => None
  | Err e => Some e
  end.

(** The edition inside an owner's item. *)
Definition asEdition (item : EditionMetadataOwner) : EditionMetadata :=
  {| Metadata := OMetadata item; Supply := OSupply item |}.

End Reads.

End erc1155.

Module erc721.

Import Go nftlabs.

Section Construct.

(** [ecdsa.PrivateKey], [common.Address], the generated binding
    [abi.ERC721], the [Gateway] interface and the fields of [SdkOptions]
    other than the gateway URL. *)
Context {PrivateKey Address Binding Gateway OtherOptions : Type}.

(** [SdkOptions] is declared outside src/; the constructor reads and
    writes [IpfsGatewayUrl] only. *)
Record SdkOptions : Type := {
  IpfsGatewayUrl : string;
  otherOptions : OtherOptions
}.

(** The struct the constructor fills: [signing] holds the fields
    [Address], [privateKey] and [signerAddress], the [Client] is the
    collaborator the module talks to. *)
Record constructed : Type := {
  signing : erc721SdkModule PrivateKey Address;
  Options : SdkOptions;
  gateway : Gateway;
  module : Binding
}.

(** [abi.NewERC721] at the given client, [NewCloudflareGateway],
    [common.HexToAddress] and the zero value of [common.Address]. *)
Variable NewERC721 : Address → res Binding.
Variable NewCloudflareGateway : string → Gateway.
Variable HexToAddress : string → Address.
Variable zeroAddress : Address.

(** [opt] is a pointer: the first component is the caller's options
    after the call. *)
Definition newErc721SdkModule (address : string) (opt : SdkOptions)
  : SdkOptions * res constructed :=
  let opt :=
    if bool_decide (IpfsGatewayUrl opt = EmptyString)
    then {| IpfsGatewayUrl := "https://cloudflare-ipfs.com/ipfs/";
            otherOptions := otherOptions opt |}
    else opt in
  match NewERC721 (HexToAddress address) with
  | Err err => (opt, Err err)
  | Ok module =>
      let gw := NewCloudflareGateway (IpfsGatewayUrl opt) in
      (opt, Ok {| signing := {| ModuleAddress := address;
                                privateKey := None;
                                signerAddress := zeroAddress |};
                  Options := opt;
                  gateway := gw;
                  module := module |})
  end.

End Construct.

Global Arguments SdkOptions : clear implicits.
Global Arguments constructed : clear implicits.

End erc721.

(** ** More concrete collaborators *)

Module MoreFixtures.

Import Go thirdweb.

(** A chain whose binding accepts every submission; the wait fails for
    burns. *)
Definition accepting : Fixtures.Chain :=
  {| abi_TotalSupply := λ _, Ok 10;
     abi_Uri := Fixtures.uriOf;
     abi_NextTokenIdToMint := Ok 3;
     abi_BalanceOfBatch := λ _ _, Ok [5; 0; 7];
     abi_SafeTransferFrom := λ _ _ _ _ _, Ok "tx:transfer";
     abi_Burn := λ _ _ _ _, Ok "tx:burn";
     abi_SetApprovalForAll := λ _ _ _, Ok "tx:approve";
     GetSignerAddress := "0x00000000000000000000000000000000000000A1";
     getTxOptions := ();
     awaitTx := λ h,
       if bool_decide (h = "tx:burn") then Err (External "timed out") else Ok h;
     fetchTokenMetadata := Fixtures.fetchFrom [];
     HexToAddress := λ s, s;
     AddressString := λ a, a;
     TxHash := λ tx, tx |}.

(** A binding constructor that rejects the address "bad". *)
Definition bindAt (address : string) : nftlabs.res string :=
  if bool_decide (address = "bad")
  then nftlabs.Err (nftlabs.External "invalid ABI")
  else nftlabs.Ok ("erc721@" +:+ address).

Definition construct (address : string) (opt : erc721.SdkOptions unit)
  : erc721.SdkOptions unit * nftlabs.res (erc721.constructed string string string string unit) :=
  erc721.newErc721SdkModule bindAt (λ url, url) (λ s, s) "0x00" address opt.

Definition noGateway : erc721.SdkOptions unit :=
  {| erc721.IpfsGatewayUrl := EmptyString; erc721.otherOptions := () |}.

Definition ownGateway : erc721.SdkOptions unit :=
  {| erc721.IpfsGatewayUrl := "https://ipfs.example/ipfs/";
     erc721.otherOptions := () |}.

End MoreFixtures.

(** ** State-changing calls on the module's signing key *)

Module erc721_calls.

Import Go nftlabs.

Section StateChanging.

(** [ecdsa.PrivateKey], [common.Address], [types.Transaction] and the
    transaction handle the Chain Writer returns. *)
Context {PrivateKey Address Transaction Handle : Type}.

(** The state-changing calls the spec lists: transfer, burn, approval. *)
Inductive Call : Type :=
| TransferCall (to : string) (tokenId : Z)
| BurnCall (tokenId : Z)
| ApprovalCall (operator : string) (approved : bool).

(** What leaves the process during such a call: the submission, the
    calls of the signing function (the client's chain id) and the wait
    for the confirmation. *)
Inductive NetEvent : Type :=
| Submit (call : Call)
| Signing (e : Event)
| AwaitConfirmation (h : Handle).

(** The errors of the spec's taxonomy that such a call can end with. *)
Inductive failure : Type :=
| SignerMissing
| SubmitFailed (e : error)
| ConfirmationFailed (e : error).

Variable c : World PrivateKey Address Transaction.

(** The Chain Writer of the spec: [submit(method, args...)] yields a
    transaction handle or an error and uses the signing function it is
    handed; [awaitConfirmation(handle)] yields the confirmed transaction
    or an error. *)
Variable submit :
  Call → (Address → Transaction → list Event * res Transaction) →
  list Event * res Handle.
Variable awaitConfirmation : Handle → res Transaction.

(** Modelled from the spec: the state-changing calls (transfer, burn,
    approval) that sign with the module's key are outside src/; only the
    key they depend on ([privateKey], [SetPrivateKey]) and the signing
    function ([getSigner]) are under it.  The spec has such a call fail with
    [SignerMissing] before any network call when no signing key is
    configured; otherwise it is a single round trip: the call is
    submitted through the Chain Writer, which signs with the module's
    signing function, the call then blocks until the transaction is
    confirmed and returns the confirmed transaction, and a failure of the
    submission or of the wait is surfaced. *)
Definition stateChangingCall (sdk : erc721SdkModule PrivateKey Address)
    (call : Call) : list NetEvent * (failure + Transaction) :=
  match privateKey sdk with
  | None => ([], inl SignerMissing)
  | Some _ =>
      let (signerCalls, r) := submit call (getSigner c sdk) in
      let sent := Submit call :: (Signing <$> signerCalls) in
      match r with
      | Err e => (sent, inl (SubmitFailed e))
      | Ok h =>
          match awaitConfirmation h with
          | Err e => (sent ++ [AwaitConfirmation h], inl (ConfirmationFailed e))
          | Ok tx => (sent ++ [AwaitConfirmation h], inr tx)
          end
      end
  end.

End StateChanging.

Global Arguments NetEvent : clear implicits.

End erc721_calls.

(** * Properties *)

Import Go thirdweb.

(** ** Conversions *)

Lemma wrap64_id z : - 2 ^ 63 ≤ z < 2 ^ 63 → wrap64 z = z.
Proof. intros ?. unfold wrap64. rewrite Z.mod_small; lia. Qed.

Lemma Int64_id z : - 2 ^ 63 ≤ z < 2 ^ 63 → Int64 z = z.
Proof.
  intros Hz. unfold Int64. case_bool_decide as Hneg.
  - destruct (decide (z = - 2 ^ 63)) as [->|Hne]; [done|].
    rewrite (Z.mod_small (Z.abs z)) by lia.
    rewrite (wrap64_id (Z.abs z)) by lia.
    rewrite wrap64_id by lia. lia.
  - rewrite Z.mod_small by lia. rewrite wrap64_id; lia.
Qed.

Lemma wrap64_range z : - 2 ^ 63 ≤ wrap64 z < 2 ^ 63.
Proof.
  unfold wrap64.
  pose proof (Z.mod_pos_bound (z + 2 ^ 63) (2 ^ 64)). lia.
Qed.

Lemma Int64_range z : - 2 ^ 63 ≤ Int64 z < 2 ^ 63.
Proof. unfold Int64. case_bool_decide; apply wrap64_range. Qed.

Example Int64_small : Int64 137 = 137 ∧ Int64 (-5) = -5.
Proof. split; reflexivity. Qed.

Example Int64_wraps :
  Int64 (2 ^ 63) = - 2 ^ 63 ∧ Int64 (2 ^ 64 + 5) = 5 ∧ Int64 (2 ^ 256 - 1) = -1.
Proof. repeat split; reflexivity. Qed.

(** ** The stable sort *)

Lemma StronglySorted_mono {A} (R1 R2 : relation A) l :
  (∀ a b, R1 a b → R2 a b) → StronglySorted R1 l → StronglySorted R2 l.
Proof.
  intros HR. induction 1 as [|x l Hl IH Hx]; constructor; [done|].
  eapply Forall_impl; [exact Hx|]. auto.
Qed.

Section SliceStable_facts.
Context {A : Type} (key : A → Z) (less : A → A → bool).
Hypothesis less_key : ∀ a b, less a b = bool_decide (key a < key b).

Lemma insert_Permutation x l : insert less x l ≡ₚ x :: l.
Proof.
  induction l as [|y l IH]; simpl; [done|].
  destruct (less y x); [|done].
  rewrite IH. apply Permutation_swap.
Qed.

Lemma SliceStable_Permutation l : SliceStable less l ≡ₚ l.
Proof.
  induction l as [|x l IH]; simpl; [done|].
  by rewrite insert_Permutation, IH.
Qed.

Lemma insert_sorted x l :
  StronglySorted (λ a b, key a ≤ key b) l →
  StronglySorted (λ a b, key a ≤ key b) (insert less x l).
Proof.
  induction 1 as [|y l Hl IH Hy]; simpl.
  - repeat constructor.
  - rewrite less_key. case_bool_decide as Hlt.
    + constructor; [done|].
      rewrite insert_Permutation. constructor; [lia|done].
    + constructor; [by constructor|].
      constructor; [lia|].
      eapply Forall_impl; [exact Hy|]. simpl. intros; lia.
Qed.

Lemma SliceStable_sorted l :
  StronglySorted (λ a b, key a ≤ key b) (SliceStable less l).
Proof.
  induction l as [|x l IH]; simpl; [constructor|]. by apply insert_sorted.
Qed.

Lemma strictly_sorted_key_inj l a b :
  StronglySorted (λ a b, key a < key b) l →
  a ∈ l → b ∈ l → key a = key b → a = b.
Proof.
  induction 1 as [|x l Hl IH Hx]; intros Ha Hb Hk.
  - by apply elem_of_nil in Ha.
  - rewrite Forall_forall in Hx.
    apply elem_of_cons in Ha as [->|Ha], Hb as [->|Hb]; [done| | |by apply IH].
    + specialize (Hx _ Hb). lia.
    + specialize (Hx _ Ha). lia.
Qed.

(** A strictly ascending arrangement of the input is what the sort
    returns. *)
Lemma SliceStable_canonical l l0 :
  l ≡ₚ l0 → StronglySorted (λ a b, key a < key b) l0 →
  SliceStable less l = l0.
Proof.
  intros Hperm Hl0.
  apply (StronglySorted_unique_strong (λ a b, key a ≤ key b)).
  - intros a b Ha Hb ??.
    apply (strictly_sorted_key_inj l0); [done| |done|lia].
    by rewrite <-Hperm, <-SliceStable_Permutation.
  - apply SliceStable_sorted.
  - eapply StronglySorted_mono; [|exact Hl0]. simpl. intros; lia.
  - by rewrite SliceStable_Permutation.
Qed.
End SliceStable_facts.

Lemma seqZ_sorted m n : StronglySorted Z.lt (seqZ m n).
Proof.
  destruct (decide (n ≤ 0)) as [?|Hn]; [rewrite seqZ_nil by done; constructor|].
  rewrite <-(Z2Nat.id n) by lia. generalize (Z.to_nat n) as k. clear.
  intros k. revert m. induction k as [|k IH]; intros m.
  - rewrite seqZ_nil by done. constructor.
  - rewrite seqZ_cons by lia.
    replace (Z.pred (Z.of_nat (S k))) with (Z.of_nat k) by lia.
    constructor; [apply IH|].
    apply Forall_seqZ. intros; lia.
Qed.

(** ** Traced computations *)

Section Run_facts.
Context {Address Transaction Hash TransactOpts : Type}.
Local Abbreviation Run := (Run Address Hash).

Lemma result_bind {A B} (m : Run A) (k : A → Run B) :
  result (bind m k) = result (k (result m)).
Proof. destruct m as [t a]. unfold bind, result; simpl. by destruct (k a). Qed.

Lemma trace_bind {A B} (m : Run A) (k : A → Run B) :
  trace (bind m k) = trace m ++ trace (k (result m)).
Proof. destruct m as [t a]. unfold bind, trace, result; simpl. by destruct (k a). Qed.

Lemma result_ret {A} (a : A) : result (ret a : Run A) = a.
Proof. done. Qed.

Lemma trace_ret {A} (a : A) : trace (ret a : Run A) = [].
Proof. done. Qed.

Lemma result_call {A} e (a : A) : result (call e a : Run A) = a.
Proof. done. Qed.

Lemma trace_call {A} e (a : A) : trace (call e a : Run A) = [e].
Proof. done. Qed.

Lemma result_mapRun {A B} (f : A → Run B) l :
  result (mapRun f l) = (λ x, result (f x)) <$> l.
Proof.
  induction l as [|x l IH]; [done|]. simpl.
  by rewrite !result_bind, result_ret, IH.
Qed.

Lemma trace_mapRun {A B} (f : A → Run B) l :
  trace (mapRun f l) = concat ((λ x, trace (f x)) <$> l).
Proof.
  induction l as [|x l IH]; [done|]. simpl.
  by rewrite !trace_bind, trace_ret, app_nil_r, IH.
Qed.
End Run_facts.

Create Rewrite HintDb run.
#[export] Hint Rewrite @result_bind @trace_bind @result_ret @trace_ret
  @result_call @trace_call : run.

Ltac run := autorewrite with run.

(** ** The batch resolver *)

Section Batch.
Context {Address Transaction Hash TransactOpts : Type}.
Variable w : World Address Transaction Hash TransactOpts.

Lemma worker_nft id : nft (result (worker w id)) = resolved w id.
Proof.
  unfold worker, resolved. rewrite result_bind.
  by destruct (result (Get w id)).
Qed.

Lemma workers_nfts l :
  omap nft (result (mapRun (worker w) l)) = omap (resolved w) l.
Proof.
  rewrite result_mapRun. induction l as [|id l IH]; [done|].
  rewrite fmap_cons. cbn [omap list_omap]. by rewrite worker_nft, IH.
Qed.

Lemma getTokenMetadata_Id id m :
  tags_id w → result (getTokenMetadata w id) = Ok m → Id m = id.
Proof.
  intros Htag. unfold getTokenMetadata. run.
  destruct (abi_Uri w id) as [uri|e]; [|done]. run.
  destruct (fetchTokenMetadata w id uri) as [m'|e] eqn:Hf; [|done].
  run. intros [= <-]. by eapply Htag.
Qed.

Lemma Get_result id :
  result (Get w id) =
    match result (getTokenMetadata w id) with
    | Err e => Err e
    | Ok metadata =>
        Ok {| Metadata := metadata;
              Supply := match abi_TotalSupply w id with
                        | Ok totalSupply => int (Int64 totalSupply)
                        | Err _ => 0
                        end |}
    end.
Proof.
  unfold Get. run.
  by destruct (result (getTokenMetadata w id)).
Qed.

Lemma resolved_Id id a : tags_id w → resolved w id = Some a → tokenIdOf a = id.
Proof.
  intros Htag. unfold resolved. rewrite Get_result.
  destruct (result (getTokenMetadata w id)) as [m|e] eqn:Hm; [|done].
  intros [= <-]. by apply getTokenMetadata_Id.
Qed.

Lemma resolved_ids (l : list Z) :
  tags_id w →
  tokenIdOf <$> omap (resolved w) l = filter (λ id, is_Some (resolved w id)) l.
Proof.
  intros Htag. induction l as [|id l IH]; [done|].
  cbn [omap list_omap]. destruct (resolved w id) as [a|] eqn:Ha.
  - rewrite filter_cons_True by (rewrite Ha; eauto).
    rewrite fmap_cons. by rewrite IH, (resolved_Id id a).
  - rewrite filter_cons_False; [done|]. rewrite Ha. by intros [??].
Qed.

Lemma resolved_sorted (l : list Z) :
  tags_id w → StronglySorted Z.lt l →
  StronglySorted (λ a b, tokenIdOf a < tokenIdOf b) (omap (resolved w) l).
Proof.
  intros Htag. induction 1 as [|id l Hl IH Hid]; [constructor|].
  cbn [omap list_omap]. destruct (resolved w id) as [a|] eqn:Ha; [|done].
  constructor; [done|].
  apply Forall_forall. intros b [id' [Hin Hb]]%list_elem_of_omap.
  rewrite (resolved_Id id a), (resolved_Id id' b) by done.
  rewrite Forall_forall in Hid. by apply Hid.
Qed.

Lemma fetchEditionsByTokenId_result tokenIds sched :
  result (fetchEditionsByTokenId w tokenIds sched) =
    Ok (SliceStable less (omap (resolved w) (sched (launch (length tokenIds))))).
Proof.
  unfold fetchEditionsByTokenId. run. by rewrite workers_nfts.
Qed.

(** Whatever the completion order, the batch returns the resolved
    editions of the launched units in launch order. *)
Lemma fetchEditionsByTokenId_canonical tokenIds sched :
  schedule sched → tags_id w →
  result (fetchEditionsByTokenId w tokenIds sched) =
    Ok (omap (resolved w) (launch (length tokenIds))).
Proof.
  intros Hs Htag. rewrite fetchEditionsByTokenId_result. f_equal.
  apply (SliceStable_canonical tokenIdOf); [done| |].
  - by rewrite (Hs _).
  - apply resolved_sorted; [done|]. apply seqZ_sorted.
Qed.

Lemma launch_upto N : launch (length (upto N)) = upto N.
Proof.
  unfold launch, upto. rewrite length_seqZ.
  destruct (decide (N ≤ 0)); [by rewrite !seqZ_nil by lia|].
  by rewrite Z2Nat.id by lia.
Qed.

Lemma resolved_is_Ok id : is_Some (resolved w id) ↔ is_Ok (result (Get w id)).
Proof.
  unfold resolved, is_Ok. destruct (result (Get w id)) as [a|e].
  - split; eauto.
  - split; [by intros [??]|by intros [??]].
Qed.

Lemma resolved_Some id a : resolved w id = Some a ↔ result (Get w id) = Ok a.
Proof.
  unfold resolved. destruct (result (Get w id)); split; congruence.
Qed.

Lemma GetAll_result sched :
  result (GetAll w sched) =
    match abi_NextTokenIdToMint w with
    | Err e => Err e
    | Ok totalCount =>
        result (fetchEditionsByTokenId w (upto (int (Int64 totalCount))) sched)
    end.
Proof.
  unfold GetAll, GetTotalCount. run.
  by destruct (abi_NextTokenIdToMint w).
Qed.
End Batch.

Lemma schedule_id : schedule (λ l, l).
Proof. by intros l. Qed.

Lemma schedule_reverse : schedule reverse.
Proof. intros l. apply reverse_Permutation. Qed.

Lemma fetchFrom_tags_id failing tokenId uri nft :
  Fixtures.fetchFrom failing tokenId uri = Ok nft → Id nft = tokenId.
Proof. unfold Fixtures.fetchFrom. case_bool_decide; [done|]. by intros [= <-]. Qed.

(** The scenarios of the specification, run on the model. *)
Example scenario_all_succeed :
  result (fetchEditionsByTokenId Fixtures.healthy [2; 0; 1] reverse)
  = Ok [Fixtures.edition 0 "ipfs://a" 10; Fixtures.edition 1 "ipfs://b" 10;
        Fixtures.edition 2 "ipfs://c" 10].
Proof. vm_compute. reflexivity. Qed.

Example scenario_storage_failure :
  result (fetchEditionsByTokenId Fixtures.flaky [0; 1; 2] (λ l, l))
  = Ok [Fixtures.edition 0 "ipfs://a" 10; Fixtures.edition 2 "ipfs://c" 10].
Proof. vm_compute. reflexivity. Qed.

(** C1.  Over the ids [0..N) that [GetAll] builds, and for any completion
    order and any mix of succeeding and failing resolutions, the batch
    resolver returns editions whose token ids are strictly ascending and
    free of duplicates, and an id (an edition) is in the output exactly
    when it lies in [0..N) and its resolution by [Get] succeeded (yielded
    that edition); this list is what [GetAll] returns when the count it
    read is N.  The helper that builds the metadata is assumed to tag it
    with the requested id. *)
Theorem fetchEditionsByTokenId_ascending_exact
    {Address Transaction Hash TransactOpts}
    (w : World Address Transaction Hash TransactOpts) (N : Z)
    (sched : list Z → list Z) :
  schedule sched → tags_id w →
  ∃ nfts,
    result (fetchEditionsByTokenId w (upto N) sched) = Ok nfts
    ∧ StronglySorted Z.lt (tokenIdOf <$> nfts)
    ∧ NoDup (tokenIdOf <$> nfts)
    ∧ (∀ id, id ∈ tokenIdOf <$> nfts ↔ 0 ≤ id < N ∧ is_Ok (result (Get w id)))
    ∧ (∀ nft, nft ∈ nfts ↔ ∃ id, 0 ≤ id < N ∧ result (Get w id) = Ok nft)
    ∧ (∀ totalCount, abi_NextTokenIdToMint w = Ok totalCount →
         int (Int64 totalCount) = N → result (GetAll w sched) = Ok nfts).
Proof.
  intros Hs Htag. exists (omap (resolved w) (upto N)).
  assert (result (fetchEditionsByTokenId w (upto N) sched)
          = Ok (omap (resolved w) (upto N))) as Hres.
  { by rewrite fetchEditionsByTokenId_canonical, launch_upto. }
  split; [done|]. split; [|split; [|split; [|split]]].
  - apply (StronglySorted_fmap _ (λ a b, tokenIdOf a < tokenIdOf b)); [done|].
    apply resolved_sorted; [done|]. apply seqZ_sorted.
  - rewrite resolved_ids by done. apply NoDup_filter, NoDup_seqZ.
  - intros id. rewrite resolved_ids by done.
    rewrite list_elem_of_filter, resolved_is_Ok. unfold upto.
    rewrite elem_of_seqZ. intuition lia.
  - intros a. rewrite list_elem_of_omap. unfold upto.
    setoid_rewrite elem_of_seqZ. setoid_rewrite resolved_Some.
    split; intros (id & ? & ?); exists id; split; first [done|lia].
  - intros totalCount Hcount <-. by rewrite GetAll_result, Hcount.
Qed.

Lemma fetchEditionsByTokenId_ascending_exact_witness :
  schedule reverse ∧ tags_id Fixtures.flaky ∧
  ∃ nfts,
    result (fetchEditionsByTokenId Fixtures.flaky (upto 3) reverse) = Ok nfts
    ∧ StronglySorted Z.lt (tokenIdOf <$> nfts)
    ∧ NoDup (tokenIdOf <$> nfts)
    ∧ (∀ id, id ∈ tokenIdOf <$> nfts
         ↔ 0 ≤ id < 3 ∧ is_Ok (result (Get Fixtures.flaky id)))
    ∧ (∀ nft, nft ∈ nfts
         ↔ ∃ id, 0 ≤ id < 3 ∧ result (Get Fixtures.flaky id) = Ok nft)
    ∧ (∀ totalCount, abi_NextTokenIdToMint Fixtures.flaky = Ok totalCount →
         int (Int64 totalCount) = 3 →
         result (GetAll Fixtures.flaky reverse) = Ok nfts).
Proof.
  split; [exact schedule_reverse|]. split; [exact (fetchFrom_tags_id [1])|].
  apply (fetchEditionsByTokenId_ascending_exact Fixtures.flaky 3 reverse).
  - exact schedule_reverse.
  - exact (fetchFrom_tags_id [1]).
Defined.

(** C5.  Two runs of the batch resolver on the same input and the same
    collaborators' answers return the same sequence whatever the two
    completion orders are, and that sequence is ascending by token id.
    The helper that builds the metadata is assumed to tag it with the
    requested id. *)
Theorem fetchEditionsByTokenId_order_independent
    {Address Transaction Hash TransactOpts}
    (w : World Address Transaction Hash TransactOpts) (tokenIds : list Z)
    (sched1 sched2 : list Z → list Z) :
  schedule sched1 → schedule sched2 → tags_id w →
  result (fetchEditionsByTokenId w tokenIds sched1)
    = result (fetchEditionsByTokenId w tokenIds sched2)
  ∧ ∃ nfts, result (fetchEditionsByTokenId w tokenIds sched1) = Ok nfts
      ∧ StronglySorted Z.lt (tokenIdOf <$> nfts).
Proof.
  intros Hs1 Hs2 Htag.
  rewrite !fetchEditionsByTokenId_canonical by done. split; [done|].
  eexists; split; [done|].
  apply (StronglySorted_fmap _ (λ a b, tokenIdOf a < tokenIdOf b)); [done|].
  apply resolved_sorted; [done|]. apply seqZ_sorted.
Qed.

Lemma fetchEditionsByTokenId_order_independent_witness :
  schedule (λ l, l) ∧ schedule reverse ∧ tags_id Fixtures.flaky ∧
  (result (fetchEditionsByTokenId Fixtures.flaky [0; 1; 2] (λ l, l))
    = result (fetchEditionsByTokenId Fixtures.flaky [0; 1; 2] reverse)
   ∧ ∃ nfts,
       result (fetchEditionsByTokenId Fixtures.flaky [0; 1; 2] (λ l, l)) = Ok nfts
       ∧ StronglySorted Z.lt (tokenIdOf <$> nfts)).
Proof.
  split; [exact schedule_id|]. split; [exact schedule_reverse|].
  split; [exact (fetchFrom_tags_id [1])|].
  apply (fetchEditionsByTokenId_order_independent Fixtures.flaky [0; 1; 2]).
  - exact schedule_id.
  - exact schedule_reverse.
  - exact (fetchFrom_tags_id [1]).
Defined.

(** C3.  Failing resolutions never make the batch fail: when every
    resolution of the batch fails the batch resolver returns the empty
    sequence and a nil error (for any batch in terms of the resolutions its
    units perform, and for the ids [0..N) of [GetAll] in terms of the
    ids), the batch resolver returns no error on any input, and [GetAll]
    returns an error exactly when the read of the count returned it. *)
Theorem item_failures_are_not_batch_failures
    {Address Transaction Hash TransactOpts}
    (w : World Address Transaction Hash TransactOpts)
    (sched : list Z → list Z) :
  schedule sched →
  (∀ tokenIds,
      (∀ id, id ∈ launch (length tokenIds) → is_Err (result (Get w id))) →
      result (fetchEditionsByTokenId w tokenIds sched) = Ok [])
  ∧ (∀ N,
      (∀ id, 0 ≤ id < N → is_Err (result (Get w id))) →
      result (fetchEditionsByTokenId w (upto N) sched) = Ok [])
  ∧ (∀ tokenIds e, result (fetchEditionsByTokenId w tokenIds sched) ≠ Err e)
  ∧ (∀ e, result (GetAll w sched) = Err e ↔ abi_NextTokenIdToMint w = Err e).
Proof.
  intros Hs.
  assert (∀ tokenIds,
      (∀ id, id ∈ launch (length tokenIds) → is_Err (result (Get w id))) →
      result (fetchEditionsByTokenId w tokenIds sched) = Ok []) as Hall.
  { intros tokenIds Hfail. rewrite fetchEditionsByTokenId_result.
    replace (omap (resolved w) (sched (launch (length tokenIds)))) with
      (@nil EditionMetadata); [done|].
    symmetry. apply elem_of_nil_inv.
    intros a (id & Hin & Ha)%list_elem_of_omap.
    rewrite (Hs _) in Hin. destruct (Hfail id Hin) as [e He].
    apply resolved_Some in Ha. congruence. }
  split; [done|]. split; [|split].
  - intros N Hfail. apply Hall. intros id. rewrite launch_upto.
    unfold upto. rewrite elem_of_seqZ. intros ?. apply Hfail. lia.
  - intros tokenIds e. by rewrite fetchEditionsByTokenId_result.
  - intros e. rewrite GetAll_result.
    destruct (abi_NextTokenIdToMint w) as [totalCount|e'].
    + rewrite fetchEditionsByTokenId_result. split; [done|done].
    + split; congruence.
Qed.

Lemma item_failures_are_not_batch_failures_witness :
  schedule reverse ∧
  ((∀ tokenIds,
      (∀ id, id ∈ launch (length tokenIds) →
             is_Err (result (Get Fixtures.dark id))) →
      result (fetchEditionsByTokenId Fixtures.dark tokenIds reverse) = Ok [])
  ∧ (∀ N,
      (∀ id, 0 ≤ id < N → is_Err (result (Get Fixtures.dark id))) →
      result (fetchEditionsByTokenId Fixtures.dark (upto N) reverse) = Ok [])
  ∧ (∀ tokenIds e,
      result (fetchEditionsByTokenId Fixtures.dark tokenIds reverse) ≠ Err e)
  ∧ (∀ e, result (GetAll Fixtures.dark reverse) = Err e
          ↔ abi_NextTokenIdToMint Fixtures.dark = Err e)).
Proof.
  split; [exact schedule_reverse|].
  apply (item_failures_are_not_batch_failures Fixtures.dark reverse).
  exact schedule_reverse.
Defined.

Example scenario_all_fail :
  GetAll Fixtures.dark reverse
  = ([CallNextTokenIdToMint;
      CallTotalSupply 2; CallUri 2; CallFetchTokenMetadata 2 "ipfs://c";
      Println (External "gateway timeout");
      CallTotalSupply 1; CallUri 1; CallFetchTokenMetadata 1 "ipfs://b";
      Println (External "gateway timeout");
      CallTotalSupply 0; CallUri 0; CallFetchTokenMetadata 0 "ipfs://a";
      Println (External "gateway timeout")],
     Ok []).
Proof. vm_compute. reflexivity. Qed.

(** C4.  A batch request for no token ids returns the empty sequence and
    a nil error, and its trace is empty: no unit is launched and no
    resolver or collaborator call is made. *)
Theorem fetchEditionsByTokenId_nil
    {Address Transaction Hash TransactOpts}
    (w : World Address Transaction Hash TransactOpts)
    (sched : list Z → list Z) :
  schedule sched →
  launch (length (@nil Z)) = []
  ∧ fetchEditionsByTokenId w [] sched = ([], Ok []).
Proof.
  intros Hs. split; [done|].
  unfold fetchEditionsByTokenId. simpl length.
  replace (sched (launch 0)) with (@nil Z); [done|].
  symmetry. apply Permutation_nil_r. apply Hs.
Qed.

Lemma fetchEditionsByTokenId_nil_witness :
  schedule reverse ∧
  (launch (length (@nil Z)) = []
   ∧ fetchEditionsByTokenId Fixtures.healthy [] reverse = ([], Ok [])).
Proof.
  split; [exact schedule_reverse|].
  apply (fetchEditionsByTokenId_nil Fixtures.healthy reverse).
  exact schedule_reverse.
Defined.

(** ** The token metadata resolver and Get *)

Section Resolver.
Context {Address Transaction Hash TransactOpts : Type}.
Variable w : World Address Transaction Hash TransactOpts.

Lemma getTokenMetadata_run tokenId :
  getTokenMetadata w tokenId =
    match abi_Uri w tokenId with
    | Err _ => ([CallUri tokenId], Err (NotFoundError tokenId))
    | Ok uri =>
        ([CallUri tokenId; CallFetchTokenMetadata tokenId uri],
         fetchTokenMetadata w tokenId uri)
    end.
Proof.
  unfold getTokenMetadata, bind, call, ret.
  destruct (abi_Uri w tokenId) as [uri|e]; [|done].
  by destruct (fetchTokenMetadata w tokenId uri).
Qed.

Lemma Get_trace tokenId :
  trace (Get w tokenId)
  = CallTotalSupply tokenId :: trace (getTokenMetadata w tokenId).
Proof.
  unfold Get. run.
  destruct (result (getTokenMetadata w tokenId)); run; by rewrite app_nil_r.
Qed.
End Resolver.

(** C6.  When the read of the content URI fails, whatever the reason, the
    resolver fails with [NotFoundError] of the requested token and does
    not contact the store; when the read succeeds and the fetch from the
    store fails, the resolver returns the store's error unchanged, which
    is no [NotFoundError] as long as the store does not produce one
    itself. *)
Theorem getTokenMetadata_errors
    {Address Transaction Hash TransactOpts}
    (w : World Address Transaction Hash TransactOpts) (tokenId : Z) :
  (∀ e, abi_Uri w tokenId = Err e →
        getTokenMetadata w tokenId
        = ([CallUri tokenId], Err (NotFoundError tokenId)))
  ∧ (∀ uri e, abi_Uri w tokenId = Ok uri →
        fetchTokenMetadata w tokenId uri = Err e →
        getTokenMetadata w tokenId
        = ([CallUri tokenId; CallFetchTokenMetadata tokenId uri], Err e)
        ∧ ((∀ t, e ≠ NotFoundError t) →
           ∀ t, result (getTokenMetadata w tokenId) ≠ Err (NotFoundError t))).
Proof.
  split.
  - intros e He. by rewrite getTokenMetadata_run, He.
  - intros uri e Huri Hfetch. rewrite getTokenMetadata_run, Huri, Hfetch.
    split; [done|]. intros Hne t [= ->]. by eapply Hne.
Qed.

Lemma getTokenMetadata_errors_witness :
  getTokenMetadata Fixtures.healthy 3 = ([CallUri 3], Err (NotFoundError 3))
  ∧ getTokenMetadata Fixtures.flaky 1
    = ([CallUri 1; CallFetchTokenMetadata 1 "ipfs://b"],
       Err (External "gateway timeout"))
  ∧ ∀ t, result (getTokenMetadata Fixtures.flaky 1) ≠ Err (NotFoundError t).
Proof.
  split; [|split].
  - apply (proj1 (getTokenMetadata_errors Fixtures.healthy 3)
             (External "execution reverted")).
    reflexivity.
  - apply (proj2 (getTokenMetadata_errors Fixtures.flaky 1)
             "ipfs://b" (External "gateway timeout")); reflexivity.
  - apply (proj2 (getTokenMetadata_errors Fixtures.flaky 1)
             "ipfs://b" (External "gateway timeout")); [reflexivity..|].
    intros t. discriminate.
Defined.

(** C7, as the code has it.  [Get] fails exactly when the metadata
    resolution fails, and with its error; when the URI read fails the run
    ends there, with [NotFoundError] and no call to the store.  A failing
    read of the total supply is not surfaced: the supply is reported as 0
    and the resolution goes on. *)
Theorem Get_surfaces_resolution_errors
    {Address Transaction Hash TransactOpts}
    (w : World Address Transaction Hash TransactOpts) (tokenId : Z) :
  (∀ e, result (Get w tokenId) = Err e
        ↔ result (getTokenMetadata w tokenId) = Err e)
  ∧ (∀ e, abi_Uri w tokenId = Err e →
        Get w tokenId
        = ([CallTotalSupply tokenId; CallUri tokenId],
           Err (NotFoundError tokenId)))
  ∧ (∀ e metadata, abi_TotalSupply w tokenId = Err e →
        result (getTokenMetadata w tokenId) = Ok metadata →
        result (Get w tokenId) = Ok {| Metadata := metadata; Supply := 0 |}).
Proof.
  split; [|split].
  - intros e. rewrite Get_result.
    destruct (result (getTokenMetadata w tokenId)); split; congruence.
  - intros e He.
    rewrite (surjective_pairing (Get w tokenId)).
    change (Get w tokenId).1 with (trace (Get w tokenId)).
    change (Get w tokenId).2 with (result (Get w tokenId)).
    rewrite Get_trace, Get_result, getTokenMetadata_run, He. done.
  - intros e metadata He Hm. by rewrite Get_result, Hm, He.
Qed.

Lemma Get_surfaces_resolution_errors_witness :
  Get Fixtures.healthy 3
  = ([CallTotalSupply 3; CallUri 3], Err (NotFoundError 3))
  ∧ result (Get Fixtures.noSupply 0)
    = Ok {| Metadata := {| Id := 0; Name := "ipfs://a";
                           Description := "ipfs://a"; Image := "ipfs://a" |};
            Supply := 0 |}.
Proof.
  split.
  - apply (proj1 (proj2 (Get_surfaces_resolution_errors Fixtures.healthy 3))
             (External "execution reverted")).
    reflexivity.
  - apply (proj2 (proj2 (Get_surfaces_resolution_errors Fixtures.noSupply 0))
             (External "rpc unavailable")); reflexivity.
Defined.

(** C7 as stated fails: on a chain whose supply read fails while the URI
    and the store answer, [Get] returns the edition and no error. *)
Lemma Get_swallows_supply_error :
  abi_TotalSupply Fixtures.noSupply 0 = Err (External "rpc unavailable")
  ∧ Get Fixtures.noSupply 0
    = ([CallTotalSupply 0; CallUri 0; CallFetchTokenMetadata 0 "ipfs://a"],
       Ok (Fixtures.edition 0 "ipfs://a" 0))
  ∧ ¬ (∀ (w : Fixtures.Chain) tokenId e,
         abi_TotalSupply w tokenId = Err e → result (Get w tokenId) = Err e).
Proof.
  split; [reflexivity|]. split; [vm_compute; reflexivity|].
  intros H. specialize (H Fixtures.noSupply 0 _ eq_refl). discriminate H.
Qed.

(** C2, at an input other than [0..N).  For the one-element batch [[5]]
    the unit that is launched gets the index 0, resolves token 0 and the
    batch returns the edition of token 0; token 5 is never asked for. *)
Theorem fetchEditionsByTokenId_resolves_indices :
  launch (length [5]) = [0]
  ∧ fetchEditionsByTokenId Fixtures.healthy [5] (λ l, l)
    = ([CallTotalSupply 0; CallUri 0; CallFetchTokenMetadata 0 "ipfs://a"],
       Ok [Fixtures.edition 0 "ipfs://a" 10])
  ∧ result (Get Fixtures.healthy 5) = Ok (Fixtures.edition 5 "ipfs://f" 10).
Proof. repeat split; vm_compute; reflexivity. Qed.

(** ** GetOwned *)

Section Owned.
Context {Address Transaction Hash TransactOpts : Type}.
Variable w : World Address Transaction Hash TransactOpts.

Lemma ownedLoop_Returns address (ids : list Z) balances index acc :
  (index + length balances ≤ length ids)%nat →
  result (ownedLoop w address ids index balances acc)
  = Returns (acc ++ omap (ownedItem w address) (zip (drop index ids) balances)).
Proof.
  revert index acc. induction balances as [|balance rest IH]; intros index acc Hlen.
  - simpl. run. destruct (drop index ids); simpl; by rewrite app_nil_r.
  - simpl in Hlen.
    destruct (lookup_lt_is_Some_2 ids index) as [id Hid]; [lia|].
    rewrite (drop_S _ _ _ Hid). cbn [ownedLoop]. rewrite Hid. run.
    cbn [zip zip_with omap list_omap]. unfold ownedItem at 1. simpl.
    destruct (result (Get w (int (Int64 id)))) as [metadata|e].
    + rewrite IH by lia. by rewrite <-app_assoc.
    + by rewrite IH by lia.
Qed.

Lemma ownedLoop_Panics address (ids : list Z) balances index acc :
  (length ids - index < length balances)%nat →
  result (ownedLoop w address ids index balances acc) = Panics.
Proof.
  revert index acc. induction balances as [|balance rest IH]; intros index acc Hlen.
  - simpl in Hlen. lia.
  - cbn [ownedLoop]. destruct (ids !! index) as [id|] eqn:Hid; [|done].
    apply lookup_lt_Some in Hid. simpl in Hlen. run.
    destruct (result (Get w (int (Int64 id)))); apply IH; lia.
Qed.

Lemma ownedLoop_trace (P : Event Address Hash → Prop) address (ids : list Z)
    balances index acc :
  (∀ id, Forall P (trace (Get w id))) →
  Forall P (trace (ownedLoop w address ids index balances acc)).
Proof.
  intros HP. revert index acc.
  induction balances as [|balance rest IH]; intros index acc.
  - simpl. run. constructor.
  - cbn [ownedLoop]. destruct (ids !! index) as [id|]; [|run; constructor].
    run. apply Forall_app. split; [apply HP|].
    destruct (result (Get w (int (Int64 id)))); apply IH.
Qed.

Lemma omap_ext_elem {A B} (f g : A → option B) (l : list A) :
  (∀ x, x ∈ l → f x = g x) → omap f l = omap g l.
Proof.
  induction l as [|x l IH]; intros Hfg; [done|].
  cbn [omap list_omap]. rewrite (Hfg x) by left.
  rewrite IH; [done|]. intros y Hy. apply Hfg. by right.
Qed.

Lemma GetOwned_result address :
  result (GetOwned w address) =
    let owner := ownerOf w address in
    match abi_NextTokenIdToMint w with
    | Err e => Returns (Err e)
    | Ok maxId =>
        let ids := upto (int (Int64 maxId)) in
        match abi_BalanceOfBatch w ((λ _, HexToAddress w owner) <$> ids) ids with
        | Err e => Returns (Err e)
        | Ok balances =>
            match result (ownedLoop w owner ids 0 balances []) with
            | Panics => Panics
            | Returns metadatas => Returns (Ok metadatas)
            end
        end
    end.
Proof.
  unfold GetOwned. run. simpl.
  destruct (abi_NextTokenIdToMint w) as [maxId|e]; [|done]. run.
  destruct (abi_BalanceOfBatch w _ _) as [balances|e]; [|done]. run.
  by destruct (result (ownedLoop w _ _ 0 balances [])).
Qed.

Lemma GetOwned_trace address :
  trace (GetOwned w address) =
    let owner := ownerOf w address in
    CallNextTokenIdToMint ::
    match abi_NextTokenIdToMint w with
    | Err e => []
    | Ok maxId =>
        let ids := upto (int (Int64 maxId)) in
        let owners := (λ _, HexToAddress w owner) <$> ids in
        CallBalanceOfBatch owners ids ::
        match abi_BalanceOfBatch w owners ids with
        | Err e => []
        | Ok balances => trace (ownedLoop w owner ids 0 balances [])
        end
    end.
Proof.
  unfold GetOwned. run. simpl.
  destruct (abi_NextTokenIdToMint w) as [maxId|e]; [|done]. run. simpl.
  destruct (abi_BalanceOfBatch w _ _) as [balances|e]; [|done]. run.
  destruct (result (ownedLoop w _ _ 0 balances [])); run; by rewrite app_nil_r.
Qed.
End Owned.

Example scenario_owned :
  result (GetOwned Fixtures.flaky "0xB2")
  = Returns (Ok [ {| OMetadata := Metadata (Fixtures.edition 0 "ipfs://a" 10);
                     OSupply := 10; Owner := "0xB2"; QuantityOwned := 5 |};
                  {| OMetadata := Metadata (Fixtures.edition 2 "ipfs://c" 10);
                     OSupply := 10; Owner := "0xB2"; QuantityOwned := 7 |} ]).
Proof. vm_compute. reflexivity. Qed.

(** C8, as the code has it.  When the count and the balance query are
    read and the response has no more entries than ids were asked for,
    [GetOwned] returns, in the order of the response, one item for every
    entry whose id is resolved by [Get], skipping the others; the item
    carries the owner and, as its quantity, the balance converted to Go's
    [int], which is the balance itself when it lies in the range of a
    signed 64-bit integer. *)
Theorem GetOwned_follows_response
    {Address Transaction Hash TransactOpts}
    (w : World Address Transaction Hash TransactOpts)
    (address : string) (maxId : Z) (balances : list Z) :
  let owner := ownerOf w address in
  let ids := upto (int (Int64 maxId)) in
  abi_NextTokenIdToMint w = Ok maxId →
  abi_BalanceOfBatch w ((λ _, HexToAddress w owner) <$> ids) ids = Ok balances →
  (length balances ≤ length ids)%nat →
  result (GetOwned w address)
    = Returns (Ok (omap (ownedItem w owner) (zip ids balances)))
  ∧ (Forall (λ balance, - 2 ^ 63 ≤ balance < 2 ^ 63) balances →
     result (GetOwned w address)
       = Returns (Ok (omap (ownedItem_spec w owner) (zip ids balances)))).
Proof.
  intros owner ids Hcount Hbal Hlen.
  assert (result (GetOwned w address)
          = Returns (Ok (omap (ownedItem w owner) (zip ids balances)))) as Hres.
  { rewrite GetOwned_result. simpl. rewrite Hcount. fold ids owner.
    rewrite Hbal, ownedLoop_Returns by (simpl; lia).
    by rewrite drop_0. }
  split; [done|]. intros Hrange. rewrite Hres. do 2 f_equal.
  apply omap_ext_elem. intros [id balance] Hin.
  pose proof (elem_of_zip_l _ _ _ _ Hin) as Hid.
  pose proof (elem_of_zip_r _ _ _ _ Hin) as Hb.
  unfold ids, upto in Hid. apply elem_of_seqZ in Hid.
  rewrite Forall_forall in Hrange. specialize (Hrange _ Hb).
  pose proof (Int64_range maxId). unfold int in *.
  unfold ownedItem, ownedItem_spec, resolved, int. simpl.
  rewrite (Int64_id id), (Int64_id balance) by lia.
  by destruct (result (Get w id)).
Qed.

Lemma GetOwned_follows_response_witness :
  abi_NextTokenIdToMint Fixtures.flaky = Ok 3
  ∧ (length [5; 0; 7] ≤ length (upto (int (Int64 3))))%nat
  ∧ Forall (λ balance, - 2 ^ 63 ≤ balance < 2 ^ 63) [5; 0; 7]
  ∧ result (GetOwned Fixtures.flaky "0xB2")
    = Returns (Ok (omap (ownedItem_spec Fixtures.flaky "0xB2")
                        (zip (upto (int (Int64 3))) [5; 0; 7]))).
Proof.
  split; [reflexivity|]. split; [vm_compute; lia|].
  assert (Forall (λ balance, - 2 ^ 63 ≤ balance < 2 ^ 63) [5; 0; 7]) as Hrange.
  { repeat constructor; lia. }
  split; [exact Hrange|].
  apply (GetOwned_follows_response Fixtures.flaky "0xB2" 3 [5; 0; 7]).
  - reflexivity.
  - reflexivity.
  - vm_compute; lia.
  - exact Hrange.
Defined.

(** C8 as stated fails.  A balance of 2^63 is reported as the quantity
    -2^63, and a response with more entries than ids were asked for makes
    [GetOwned] panic instead of returning items. *)
Lemma GetOwned_quantity_wraps :
  abi_BalanceOfBatch Fixtures.whale ["0xB2"] [0] = Ok [2 ^ 63]
  ∧ (∃ item, result (GetOwned Fixtures.whale "0xB2") = Returns (Ok [item])
             ∧ QuantityOwned item = - 2 ^ 63
             ∧ QuantityOwned item ≠ 2 ^ 63)
  ∧ abi_BalanceOfBatch Fixtures.chatty ["0xB2"] [0] = Ok [5; 6]
  ∧ result (GetOwned Fixtures.chatty "0xB2") = Panics.
Proof.
  split; [reflexivity|]. split.
  - eexists. split; [vm_compute; reflexivity|]. split; [reflexivity|done].
  - split; [reflexivity|]. vm_compute. reflexivity.
Qed.

(** C10.  Called with the empty string, [GetOwned] takes the signer's
    address in its place: the whole run is the run for the signer's
    address, the balance query that follows the read of the count asks
    for that address at every id and is the only balance query of the
    run, and every returned item names it as the owner. *)
Theorem GetOwned_empty_address
    {Address Transaction Hash TransactOpts}
    (w : World Address Transaction Hash TransactOpts) :
  let signer := AddressString w (GetSignerAddress w) in
  ownerOf w EmptyString = signer
  ∧ GetOwned w EmptyString = GetOwned w signer
  ∧ (∀ maxId, abi_NextTokenIdToMint w = Ok maxId →
       let ids := upto (int (Int64 maxId)) in
       ∃ rest,
         trace (GetOwned w EmptyString)
         = CallNextTokenIdToMint
           :: CallBalanceOfBatch ((λ _, HexToAddress w signer) <$> ids) ids
           :: rest
         ∧ Forall (λ e, ∀ owners ids', e ≠ CallBalanceOfBatch owners ids') rest)
  ∧ (∀ items, result (GetOwned w EmptyString) = Returns (Ok items) →
       Forall (λ item, Owner item = signer) items).
Proof.
  intros signer.
  assert (ownerOf w EmptyString = signer) as Hown.
  { unfold ownerOf. by rewrite bool_decide_eq_true_2. }
  assert (ownerOf w signer = signer) as Hown'.
  { unfold ownerOf. by case_bool_decide. }
  split; [done|]. split; [|split].
  - unfold GetOwned. by rewrite Hown, Hown'.
  - intros maxId Hcount ids. rewrite GetOwned_trace. simpl.
    rewrite Hcount, Hown. fold ids. eexists. split; [done|].
    destruct (abi_BalanceOfBatch w _ ids) as [balances|e]; [|constructor].
    apply ownedLoop_trace. intros id.
    rewrite Get_trace, getTokenMetadata_run.
    destruct (abi_Uri w id); repeat constructor; done.
  - intros items. rewrite GetOwned_result. simpl. rewrite Hown.
    destruct (abi_NextTokenIdToMint w) as [maxId|e]; [|done].
    destruct (abi_BalanceOfBatch w _ _) as [balances|e]; [|done].
    set (ids := upto (int (Int64 maxId))).
    destruct (decide (length balances ≤ length ids)%nat) as [Hlen|Hlen].
    + rewrite ownedLoop_Returns by (simpl; lia). intros [= <-].
      apply Forall_forall. intros item (entry & _ & Hitem)%list_elem_of_omap.
      unfold ownedItem in Hitem.
      destruct (result (Get w _)); [|done]. by injection Hitem as <-.
    + rewrite ownedLoop_Panics by (simpl; lia). done.
Qed.

Lemma GetOwned_empty_address_witness :
  GetOwned Fixtures.healthy EmptyString
  = GetOwned Fixtures.healthy "0x00000000000000000000000000000000000000A1"
  ∧ ∃ rest,
      trace (GetOwned Fixtures.healthy EmptyString)
      = CallNextTokenIdToMint
        :: CallBalanceOfBatch
             (replicate 3 "0x00000000000000000000000000000000000000A1") [0; 1; 2]
        :: rest.
Proof.
  pose proof (GetOwned_empty_address Fixtures.healthy) as (_ & Hrun & Htrace & _).
  split; [exact Hrun|].
  destruct (Htrace 3 eq_refl) as (rest & Hrest & _).
  exists rest. exact Hrest.
Defined.

(** ** Signing *)

(** [Transfer], [Burn] and [SetApprovalForAll] of the ERC-1155 facade make
    no check of their own before the binding is called: an error of the
    binding is returned as it is, and nothing is called after it. *)
Lemma writes_pass_on_the_binding_error
    {Address Transaction Hash TransactOpts}
    (w : World Address Transaction Hash TransactOpts) :
  (∀ to tokenId amount e,
      abi_SafeTransferFrom w (getTxOptions w) (GetSignerAddress w)
        (HexToAddress w to) tokenId amount = Err e →
      Transfer w to tokenId amount
      = ([CallSafeTransferFrom (GetSignerAddress w) (HexToAddress w to)
            tokenId amount], Err e))
  ∧ (∀ tokenId amount e,
      abi_Burn w (getTxOptions w) (GetSignerAddress w) tokenId amount = Err e →
      Burn w tokenId amount
      = ([CallBurn (GetSignerAddress w) tokenId amount], Err e))
  ∧ (∀ operator approved e,
      abi_SetApprovalForAll w (getTxOptions w) (HexToAddress w operator)
        approved = Err e →
      SetApprovalForAll w operator approved
      = ([CallSetApprovalForAll (HexToAddress w operator) approved], Err e)).
Proof.
  split; [|split].
  - intros to tokenId amount e He.
    unfold Transfer, await, call, bind. by rewrite He.
  - intros tokenId amount e He.
    unfold Burn, await, call, bind. by rewrite He.
  - intros operator approved e He.
    unfold SetApprovalForAll, await, call, bind. by rewrite He.
Qed.

Section Keyless.
Context {PrivateKey Address Transaction Handle : Type}.
Variable c : nftlabs.World PrivateKey Address Transaction.
Variable submit :
  erc721_calls.Call →
  (Address → Transaction → list nftlabs.Event * nftlabs.res Transaction) →
  list nftlabs.Event * nftlabs.res Handle.
Variable awaitConfirmation : Handle → nftlabs.res Transaction.


Lemma keyed_call_is_submitted sdk call :
  is_Some (nftlabs.privateKey sdk) →
  ∃ rest outcome,
    erc721_calls.stateChangingCall c submit awaitConfirmation sdk call
    = (erc721_calls.Submit call :: rest, outcome)
    ∧ outcome ≠ inl erc721_calls.SignerMissing.
Proof.
  intros [pKey Hkey]. unfold erc721_calls.stateChangingCall. rewrite Hkey.
  destruct (submit call (nftlabs.getSigner c sdk)) as [signerCalls [h|e]].
  - destruct (awaitConfirmation h); simpl; by do 2 eexists.
  - by do 2 eexists.
Qed.
End Keyless.



(** With a key accepted by [SetPrivateKey] the same call is submitted and
    signed through [getSigner]. *)
Example keyed_call_goes_out :
  erc721_calls.stateChangingCall Fixtures.client
    (λ call signer, let (t, r) := signer "0xA1" "tx" in (t, r))
    (λ h, nftlabs.Ok h)
    (nftlabs.SetPrivateKey Fixtures.client Fixtures.keyless "c0ffee").1
    (erc721_calls.BurnCall 1)
  = ([erc721_calls.Submit (erc721_calls.BurnCall 1);
      erc721_calls.Signing nftlabs.CallChainID;
      erc721_calls.AwaitConfirmation "tx|signed:c0ffee"],
     inr "tx|signed:c0ffee").
Proof. vm_compute. reflexivity. Qed.

(** * Further properties *)

Import erc1155.

(** ** Stability of the sort *)

Section SliceStable_stability.
Context {A : Type} (key : A → Z) (less : A → A → bool).
Hypothesis less_key : ∀ a b, less a b = bool_decide (key a < key b).

Lemma insert_filter_key k x l :
  filter (λ a, key a = k) (insert less x l) = filter (λ a, key a = k) (x :: l).
Proof.
  induction l as [|y l IH]; [done|]. simpl.
  rewrite less_key. case_bool_decide as Hlt; [|done].
  rewrite filter_cons, IH. rewrite !filter_cons.
  repeat case_decide; try done; lia.
Qed.

Lemma SliceStable_filter_key k l :
  filter (λ a, key a = k) (SliceStable less l) = filter (λ a, key a = k) l.
Proof.
  induction l as [|x l IH]; [done|]. simpl.
  by rewrite insert_filter_key, !filter_cons, IH.
Qed.
End SliceStable_stability.

(** ** Units of the batch *)

Section Units.
Context {Address Transaction Hash TransactOpts : Type}.
Variable w : World Address Transaction Hash TransactOpts.

Lemma worker_trace id :
  trace (worker w id)
  = trace (Get w id)
    ++ match result (Get w id) with Err e => [Println e] | Ok _ => [] end.
Proof.
  unfold worker. rewrite trace_bind.
  by destruct (result (Get w id)).
Qed.

Lemma Get_run id :
  trace (Get w id)
  = CallTotalSupply id :: CallUri id ::
    match abi_Uri w id with
    | Ok uri => [CallFetchTokenMetadata id uri]
    | Err _ => []
    end.
Proof.
  rewrite Get_trace, getTokenMetadata_run. by destruct (abi_Uri w id).
Qed.

Lemma omap_concat {B C} (f : B → option C) (ls : list (list B)) :
  omap f (concat ls) = concat ((λ l : list B, omap f l) <$> ls).
Proof.
  induction ls as [|l ls IH]; [done|]. csimpl. by rewrite omap_app, IH.
Qed.

Lemma omap_length_le {B C} (f : B → option C) (l : list B) :
  (length (omap f l) ≤ length l)%nat.
Proof.
  induction l as [|x l IH]; [done|]. csimpl.
  destruct (f x); simpl; lia.
Qed.

Lemma concat_singletons {B} (l : list B) : concat ((λ x, [x]) <$> l) = l.
Proof. induction l as [|x l IH]; [done|]. csimpl. by rewrite IH. Qed.

Lemma concat_optional {B C} (f : B → option C) (l : list B) :
  concat ((λ x, option_list (f x)) <$> l) = omap f l.
Proof.
  induction l as [|x l IH]; [done|]. csimpl.
  rewrite IH. by destruct (f x).
Qed.

Lemma worker_uriCall id : omap uriCall (trace (worker w id)) = [id].
Proof.
  rewrite worker_trace, Get_run.
  destruct (abi_Uri w id), (result (Get w id)); done.
Qed.

Lemma worker_supplyCall id : omap supplyCall (trace (worker w id)) = [id].
Proof.
  rewrite worker_trace, Get_run.
  destruct (abi_Uri w id), (result (Get w id)); done.
Qed.

Lemma worker_printed id :
  omap printed (trace (worker w id)) = option_list (failure w id).
Proof.
  rewrite worker_trace, Get_run. unfold failure.
  destruct (abi_Uri w id), (result (Get w id)); done.
Qed.

Lemma fetchEditionsByTokenId_trace tokenIds sched :
  trace (fetchEditionsByTokenId w tokenIds sched)
  = concat ((λ id, trace (worker w id)) <$> sched (launch (length tokenIds))).
Proof.
  unfold fetchEditionsByTokenId. rewrite trace_bind, trace_ret, app_nil_r.
  apply trace_mapRun.
Qed.

Lemma units_project {C} (f : Event Address Hash → option C) (g : Z → list C)
    tokenIds sched :
  (∀ id, omap f (trace (worker w id)) = g id) →
  omap f (trace (fetchEditionsByTokenId w tokenIds sched))
  = concat (g <$> sched (launch (length tokenIds))).
Proof.
  intros Hfg. rewrite fetchEditionsByTokenId_trace, omap_concat.
  rewrite <-list_fmap_compose. f_equal.
  apply list_fmap_ext. intros _ id _. apply Hfg.
Qed.
End Units.

(** X1.  A unit of the batch reports either the edition with a nil error
    or a nil edition with the error of [Get], never both and never
    neither, and it prints exactly when it fails: its calls are those of
    [Get], followed by the print of the error in the failing case. *)
Theorem worker_reports_one_of_two
    {Address Transaction Hash TransactOpts}
    (w : World Address Transaction Hash TransactOpts) (id : Z) :
  ((∃ edition, result (Get w id) = Ok edition
        ∧ result (worker w id) = {| nft := Some edition; err := None |}
        ∧ trace (worker w id) = trace (Get w id))
   ∨ (∃ e, result (Get w id) = Err e
        ∧ result (worker w id) = {| nft := None; err := Some e |}
        ∧ trace (worker w id) = trace (Get w id) ++ [Println e]))
  ∧ (is_Some (nft (result (worker w id))) ↔ err (result (worker w id)) = None).
Proof.
  rewrite worker_trace. unfold worker. rewrite result_bind.
  destruct (result (Get w id)) as [edition|e]; simpl.
  - split; [left; eexists; by rewrite app_nil_r|]. unfold result; simpl.
    split; eauto.
  - split; [right; eauto|]. unfold result; simpl.
    split; [by intros [??]|done].
Qed.

(** X2.  Whatever the ids in [tokenIds] and whatever the completion
    order, the batch reads the supply and the content URI exactly once
    for each index 0, ..., len(tokenIds)-1 and for no other token, and it
    prints exactly the errors of the failing indices, each once. *)
Theorem fetchEditionsByTokenId_calls
    {Address Transaction Hash TransactOpts}
    (w : World Address Transaction Hash TransactOpts)
    (tokenIds : list Z) (sched : list Z → list Z) :
  schedule sched →
  let calls := trace (fetchEditionsByTokenId w tokenIds sched) in
  omap uriCall calls ≡ₚ seqZ 0 (Z.of_nat (length tokenIds))
  ∧ omap supplyCall calls ≡ₚ seqZ 0 (Z.of_nat (length tokenIds))
  ∧ omap printed calls
    ≡ₚ omap (failure w) (seqZ 0 (Z.of_nat (length tokenIds))).
Proof.
  intros Hs calls. unfold calls. split; [|split].
  - rewrite (units_project w uriCall (λ id, [id])) by apply worker_uriCall.
    by rewrite concat_singletons, (Hs _).
  - rewrite (units_project w supplyCall (λ id, [id])) by apply worker_supplyCall.
    by rewrite concat_singletons, (Hs _).
  - rewrite (units_project w printed (λ id, option_list (failure w id)))
      by apply worker_printed.
    by rewrite concat_optional, (Hs _).
Qed.

Lemma fetchEditionsByTokenId_calls_witness :
  schedule reverse
  ∧ omap uriCall (trace (fetchEditionsByTokenId Fixtures.flaky [7; 8; 9] reverse))
    ≡ₚ [0; 1; 2]
  ∧ omap printed (trace (fetchEditionsByTokenId Fixtures.flaky [7; 8; 9] reverse))
    ≡ₚ [External "gateway timeout"].
Proof.
  split; [exact schedule_reverse|].
  pose proof (fetchEditionsByTokenId_calls Fixtures.flaky [7; 8; 9] reverse
                schedule_reverse) as (Huri & _ & Hprint).
  split; [exact Huri|exact Hprint].
Defined.

(** X3.  With no assumption on the metadata helper: for any completion
    order the batch returns a rearrangement of the editions of the
    indices whose [Get] succeeded, so at most len(tokenIds) of them, in
    non-decreasing order of id, and editions that carry the same id stay
    in the order in which their units completed. *)
Theorem fetchEditionsByTokenId_sorts_stably
    {Address Transaction Hash TransactOpts}
    (w : World Address Transaction Hash TransactOpts)
    (tokenIds : list Z) (sched : list Z → list Z) :
  schedule sched →
  ∃ nfts,
    result (fetchEditionsByTokenId w tokenIds sched) = Ok nfts
    ∧ nfts ≡ₚ omap (resolved w) (seqZ 0 (Z.of_nat (length tokenIds)))
    ∧ (length nfts ≤ length tokenIds)%nat
    ∧ StronglySorted (λ a b, tokenIdOf a ≤ tokenIdOf b) nfts
    ∧ ∀ id, filter (λ a, tokenIdOf a = id) nfts
            = filter (λ a, tokenIdOf a = id)
                (omap (resolved w) (sched (seqZ 0 (Z.of_nat (length tokenIds))))).
Proof.
  intros Hs. eexists. split; [apply fetchEditionsByTokenId_result|].
  assert (SliceStable less (omap (resolved w) (sched (launch (length tokenIds))))
          ≡ₚ omap (resolved w) (seqZ 0 (Z.of_nat (length tokenIds)))) as Hperm.
  { by rewrite SliceStable_Permutation, (Hs _). }
  split; [done|]. split; [|split].
  - rewrite Hperm. etrans; [apply omap_length_le|].
    rewrite length_seqZ. lia.
  - by apply (SliceStable_sorted tokenIdOf).
  - intros id. by apply (SliceStable_filter_key tokenIdOf).
Qed.

Lemma fetchEditionsByTokenId_sorts_stably_witness :
  schedule reverse
  ∧ ∃ nfts,
      result (fetchEditionsByTokenId Fixtures.flaky [7; 8; 9] reverse) = Ok nfts
      ∧ (length nfts ≤ 3)%nat.
Proof.
  split; [exact schedule_reverse|].
  destruct (fetchEditionsByTokenId_sorts_stably Fixtures.flaky [7; 8; 9] reverse
              schedule_reverse) as (nfts & Hres & _ & Hlen & _).
  exists nfts. split; [exact Hres|exact Hlen].
Defined.

(** ** Get and the supply *)

(** X4.  [Get] succeeds exactly when the URI read and the fetch of the
    document both succeed, and the edition then carries that document;
    the answer of the supply read has no part in it.  Whatever happens,
    the supply is read first and the URI next, both for the requested
    token, and the store is asked only after a successful URI read. *)
Theorem Get_succeeds_iff
    {Address Transaction Hash TransactOpts}
    (w : World Address Transaction Hash TransactOpts) (tokenId : Z) :
  (∀ edition,
      result (Get w tokenId) = Ok edition
      ↔ ∃ uri, abi_Uri w tokenId = Ok uri
          ∧ fetchTokenMetadata w tokenId uri = Ok (Metadata edition)
          ∧ Supply edition
            = match abi_TotalSupply w tokenId with
              | Ok totalSupply => int (Int64 totalSupply)
              | Err _ => 0
              end)
  ∧ trace (Get w tokenId)
    = CallTotalSupply tokenId :: CallUri tokenId ::
      match abi_Uri w tokenId with
      | Ok uri => [CallFetchTokenMetadata tokenId uri]
      | Err _ => []
      end.
Proof.
  split; [|apply Get_run].
  intros edition. rewrite Get_result, getTokenMetadata_run.
  destruct (abi_Uri w tokenId) as [uri|e]; unfold result; simpl.
  - destruct (fetchTokenMetadata w tokenId uri) as [nft|e] eqn:Hf; split.
    + intros [= <-]. exists uri. by rewrite Hf.
    + intros (uri' & [= <-] & Hf' & Hs). rewrite Hf in Hf'.
      destruct edition; simpl in *. by simplify_eq.
    + done.
    + intros (uri' & [= <-] & Hf' & _). by rewrite Hf in Hf'.
  - split; [done|]. by intros (uri & ? & _).
Qed.

(** X5.  The supply in the edition [Get] returns always lies in the range
    of a signed 64-bit integer.  It is the number [GetTotalSupply] returns
    for the same token when that number lies in the range, and 0 when
    [GetTotalSupply] fails; a supply of 2^63 is reported by [Get] as
    -2^63. *)
Theorem Get_supply_against_GetTotalSupply
    {Address Transaction Hash TransactOpts}
    (w : World Address Transaction Hash TransactOpts) (tokenId : Z)
    (edition : EditionMetadata) :
  result (Get w tokenId) = Ok edition →
  - 2 ^ 63 ≤ Supply edition < 2 ^ 63
  ∧ (∀ supply, result (GetTotalSupply w tokenId) = Ok supply →
       (- 2 ^ 63 ≤ supply < 2 ^ 63 → Supply edition = supply)
       ∧ (supply = 2 ^ 63 → Supply edition = - 2 ^ 63))
  ∧ (∀ e, result (GetTotalSupply w tokenId) = Err e → Supply edition = 0).
Proof.
  rewrite Get_result. unfold GetTotalSupply. rewrite result_call.
  destruct (result (getTokenMetadata w tokenId)) as [metadata|e]; [|done].
  intros [= <-]. simpl. unfold int.
  destruct (abi_TotalSupply w tokenId) as [totalSupply|e].
  - split; [apply Int64_range|]. split; [|done].
    intros supply [= ->]. split; [apply Int64_id|by intros ->].
  - split; [lia|]. split; [done|]. by intros e' _.
Qed.

Lemma Get_supply_against_GetTotalSupply_witness :
  result (Get Fixtures.whale 0) = Ok (Fixtures.edition 0 "ipfs://a" (- 2 ^ 63))
  ∧ result (GetTotalSupply Fixtures.whale 0) = Ok (2 ^ 63)
  ∧ - 2 ^ 63 ≤ Supply (Fixtures.edition 0 "ipfs://a" (- 2 ^ 63)) < 2 ^ 63.
Proof.
  assert (result (Get Fixtures.whale 0)
          = Ok (Fixtures.edition 0 "ipfs://a" (- 2 ^ 63))) as Hget.
  { vm_compute. reflexivity. }
  split; [exact Hget|]. split; [reflexivity|].
  apply (Get_supply_against_GetTotalSupply Fixtures.whale 0 _ Hget).
Defined.

(** ** GetAll *)

Lemma empty_batch_run
    {Address Transaction Hash TransactOpts}
    (w : World Address Transaction Hash TransactOpts)
    (sched : list Z → list Z) :
  schedule sched → fetchEditionsByTokenId w [] sched = ([], Ok []).
Proof.
  intros Hs. unfold fetchEditionsByTokenId. simpl length.
  replace (sched (launch 0)) with (@nil Z); [done|].
  symmetry. apply Permutation_nil_r, Hs.
Qed.

(** X6.  [GetAll] stops after the read of the count when that read
    fails, returning its error, and when the count converted to [int] is
    not positive, returning the empty list: no token is resolved.  The
    second case includes the counts from 2^63 up to 2^64 - 1, which the
    conversion makes negative. *)
Theorem GetAll_stops_after_the_count
    {Address Transaction Hash TransactOpts}
    (w : World Address Transaction Hash TransactOpts)
    (sched : list Z → list Z) :
  schedule sched →
  (∀ e, abi_NextTokenIdToMint w = Err e →
        GetAll w sched = ([CallNextTokenIdToMint], Err e))
  ∧ (∀ totalCount, abi_NextTokenIdToMint w = Ok totalCount →
        int (Int64 totalCount) ≤ 0 →
        GetAll w sched = ([CallNextTokenIdToMint], Ok []))
  ∧ (∀ totalCount, abi_NextTokenIdToMint w = Ok totalCount →
        2 ^ 63 ≤ totalCount < 2 ^ 64 →
        GetAll w sched = ([CallNextTokenIdToMint], Ok [])).
Proof.
  intros Hs.
  assert (∀ totalCount, abi_NextTokenIdToMint w = Ok totalCount →
            int (Int64 totalCount) ≤ 0 →
            GetAll w sched = ([CallNextTokenIdToMint], Ok [])) as Hempty.
  { intros totalCount Hcount Hle. unfold GetAll, GetTotalCount, call, bind.
    rewrite Hcount. unfold upto. rewrite seqZ_nil by done.
    by rewrite (empty_batch_run w sched Hs). }
  split; [|split; [done|]].
  - intros e He. unfold GetAll, GetTotalCount, call, bind. by rewrite He.
  - intros totalCount Hcount Hrange. apply (Hempty _ Hcount).
    unfold int, Int64. rewrite bool_decide_eq_false_2 by lia.
    rewrite Z.abs_eq, Z.mod_small by lia. unfold wrap64.
    replace (totalCount + 2 ^ 63) with (totalCount - 2 ^ 63 + 1 * 2 ^ 64) by lia.
    rewrite Z.mod_add, Z.mod_small by lia. lia.
Qed.

Lemma GetAll_stops_after_the_count_witness :
  schedule reverse
  ∧ GetAll (Fixtures.chain (λ _, Ok 10) (Ok (2 ^ 63)) (Ok []) []) reverse
    = ([CallNextTokenIdToMint], Ok []).
Proof.
  split; [exact schedule_reverse|].
  apply (proj2 (proj2
           (GetAll_stops_after_the_count
              (Fixtures.chain (λ _, Ok 10) (Ok (2 ^ 63)) (Ok []) []) reverse
              schedule_reverse)) (2 ^ 63)).
  - reflexivity.
  - lia.
Defined.

Section GetAll_facts.
Context {Address Transaction Hash TransactOpts : Type}.
Variable w : World Address Transaction Hash TransactOpts.

Lemma GetAll_run sched totalCount :
  abi_NextTokenIdToMint w = Ok totalCount →
  GetAll w sched
  = (CallNextTokenIdToMint
       :: trace (fetchEditionsByTokenId w (upto (int (Int64 totalCount))) sched),
     result (fetchEditionsByTokenId w (upto (int (Int64 totalCount))) sched)).
Proof.
  intros Hcount. unfold GetAll, GetTotalCount, call, bind. rewrite Hcount.
  by destruct (fetchEditionsByTokenId w _ sched).
Qed.

Lemma resolved_or_failed (l : list Z) :
  (length (omap (resolved w) l) + length (omap (failure w) l) = length l)%nat.
Proof.
  induction l as [|id l IH]; [done|]. csimpl.
  unfold resolved at 1, failure at 1.
  destruct (result (Get w id)); simpl; lia.
Qed.
End GetAll_facts.

(** X7.  When the count is read, [GetAll] follows it with one read of
    the supply and one of the URI for every id below the count converted
    to [int], and for no other token; every such id either has its
    edition in the result or has its error printed, so the result and the
    printed errors together are as many as the ids. *)
Theorem GetAll_accounts_for_every_id
    {Address Transaction Hash TransactOpts}
    (w : World Address Transaction Hash TransactOpts)
    (sched : list Z → list Z) (totalCount : Z) :
  schedule sched →
  abi_NextTokenIdToMint w = Ok totalCount →
  let ids := seqZ 0 (int (Int64 totalCount)) in
  ∃ calls nfts,
    GetAll w sched = (CallNextTokenIdToMint :: calls, Ok nfts)
    ∧ omap uriCall calls ≡ₚ ids
    ∧ omap supplyCall calls ≡ₚ ids
    ∧ omap printed calls ≡ₚ omap (failure w) ids
    ∧ nfts ≡ₚ omap (resolved w) ids
    ∧ (length nfts + length (omap printed calls) = length ids)%nat.
Proof.
  intros Hs Hcount ids. rewrite (GetAll_run w sched _ Hcount).
  rewrite fetchEditionsByTokenId_result. do 2 eexists. split; [done|].
  rewrite (units_project w uriCall (λ id, [id])) by apply worker_uriCall.
  rewrite (units_project w supplyCall (λ id, [id])) by apply worker_supplyCall.
  rewrite (units_project w printed (λ id, option_list (failure w id)))
    by apply worker_printed.
  rewrite !concat_singletons, concat_optional, launch_upto.
  rewrite SliceStable_Permutation, !(Hs _).
  repeat split; try done. apply resolved_or_failed.
Qed.

Lemma GetAll_accounts_for_every_id_witness :
  schedule reverse
  ∧ abi_NextTokenIdToMint Fixtures.flaky = Ok 3
  ∧ ∃ calls nfts,
      GetAll Fixtures.flaky reverse = (CallNextTokenIdToMint :: calls, Ok nfts)
      ∧ (length nfts + length (omap printed calls) = 3)%nat.
Proof.
  split; [exact schedule_reverse|]. split; [reflexivity|].
  destruct (GetAll_accounts_for_every_id Fixtures.flaky reverse 3
              schedule_reverse eq_refl)
    as (calls & nfts & Hrun & _ & _ & _ & _ & Hlen).
  exists calls, nfts. split; [exact Hrun|exact Hlen].
Defined.

(** ** GetOwned: errors, panic and calls *)

Section Owned_calls.
Context {Address Transaction Hash TransactOpts : Type}.
Variable w : World Address Transaction Hash TransactOpts.

Lemma ownedLoop_calls address (ids : list Z) balances index acc :
  (index + length balances ≤ length ids)%nat →
  trace (ownedLoop w address ids index balances acc)
  = concat ((λ id, trace (Get w (int (Int64 id))))
              <$> take (length balances) (drop index ids)).
Proof.
  revert index acc.
  induction balances as [|balance rest IH]; intros index acc Hlen.
  - cbn [ownedLoop length]. by rewrite take_0.
  - simpl in Hlen.
    destruct (lookup_lt_is_Some_2 ids index) as [id Hid]; [lia|].
    rewrite (drop_S _ _ _ Hid). cbn [ownedLoop length take]. rewrite Hid.
    rewrite trace_bind. csimpl. f_equal.
    destruct (result (Get w (int (Int64 id)))); apply IH; lia.
Qed.

Lemma upto_Int64 n id : id ∈ upto (int (Int64 n)) → int (Int64 id) = id.
Proof.
  unfold upto, int. rewrite elem_of_seqZ. intros ?.
  pose proof (Int64_range n). apply Int64_id. lia.
Qed.

Lemma owned_editions address (ids balances : list Z) :
  length ids = length balances →
  Forall (λ id, int (Int64 id) = id) ids →
  asEdition <$> omap (ownedItem w address) (zip ids balances)
  = omap (resolved w) ids.
Proof.
  intros Hlen Hids. revert balances Hlen.
  induction Hids as [|id ids Hid Hids IH]; intros [|balance balances] Hlen;
    try done.
  csimpl. unfold ownedItem at 1, resolved at 1. simpl. rewrite Hid.
  destruct (result (Get w id)) as [[metadata supply]|e]; csimpl.
  - f_equal. apply IH. by injection Hlen.
  - apply IH. by injection Hlen.
Qed.
End Owned_calls.

(** X8.  [GetOwned] returns an error exactly when the read of the count
    or the balance query returns it, and it then stops: after a failed
    count nothing else is called, after a failed balance query no token
    is resolved.  A failing resolution of a token never gives an error. *)
Theorem GetOwned_errors
    {Address Transaction Hash TransactOpts}
    (w : World Address Transaction Hash TransactOpts) (address : string) :
  let owner := HexToAddress w (ownerOf w address) in
  (∀ e, result (GetOwned w address) = Returns (Err e)
        ↔ abi_NextTokenIdToMint w = Err e
          ∨ ∃ maxId, abi_NextTokenIdToMint w = Ok maxId
              ∧ let ids := upto (int (Int64 maxId)) in
                abi_BalanceOfBatch w ((λ _, owner) <$> ids) ids = Err e)
  ∧ (∀ e, abi_NextTokenIdToMint w = Err e →
        GetOwned w address = ([CallNextTokenIdToMint], Returns (Err e)))
  ∧ (∀ maxId e, abi_NextTokenIdToMint w = Ok maxId →
        let ids := upto (int (Int64 maxId)) in
        abi_BalanceOfBatch w ((λ _, owner) <$> ids) ids = Err e →
        GetOwned w address
        = ([CallNextTokenIdToMint; CallBalanceOfBatch ((λ _, owner) <$> ids) ids],
           Returns (Err e))).
Proof.
  intros owner. split; [|split].
  - intros e. rewrite GetOwned_result. simpl. fold owner.
    destruct (abi_NextTokenIdToMint w) as [maxId|e'].
    + destruct (abi_BalanceOfBatch w _ _) as [balances|e''] eqn:Hbal.
      * split.
        -- by destruct (result (ownedLoop w _ _ 0 balances [])).
        -- intros [?|(maxId' & [= <-] & Hbal')]; [done|].
           simpl in Hbal'. congruence.
      * split.
        -- intros [= ->]. right. by exists maxId.
        -- intros [?|(maxId' & [= <-] & Hbal')]; [done|].
           simpl in Hbal'. congruence.
    + split.
      * intros [= ->]. by left.
      * intros [[= ->]|(maxId' & ? & _)]; done.
  - intros e He. unfold GetOwned, call, bind. by rewrite He.
  - intros maxId e Hcount ids Hbal. unfold GetOwned, call, bind.
    rewrite Hcount. fold ids owner. by rewrite Hbal.
Qed.

Lemma GetOwned_errors_witness :
  GetOwned (Fixtures.chain (λ _, Ok 10) (Err (External "rpc unavailable"))
              (Ok []) []) "0xB2"
  = ([CallNextTokenIdToMint], Returns (Err (External "rpc unavailable")))
  ∧ GetOwned (Fixtures.chain (λ _, Ok 10) (Ok 2)
                (Err (External "execution reverted")) []) "0xB2"
    = ([CallNextTokenIdToMint; CallBalanceOfBatch ["0xB2"; "0xB2"] [0; 1]],
       Returns (Err (External "execution reverted"))).
Proof.
  split.
  - apply (proj1 (proj2 (GetOwned_errors
             (Fixtures.chain (λ _, Ok 10) (Err (External "rpc unavailable"))
                (Ok []) []) "0xB2"))).
    reflexivity.
  - apply (proj2 (proj2 (GetOwned_errors
             (Fixtures.chain (λ _, Ok 10) (Ok 2)
                (Err (External "execution reverted")) []) "0xB2")) 2);
      reflexivity.
Defined.

(** X9.  [GetOwned] panics exactly when the count and the balance query
    are read and the response has more entries than ids were asked for;
    in every other case it returns. *)
Theorem GetOwned_panics_iff
    {Address Transaction Hash TransactOpts}
    (w : World Address Transaction Hash TransactOpts) (address : string) :
  result (GetOwned w address) = Panics
  ↔ ∃ maxId balances,
      abi_NextTokenIdToMint w = Ok maxId
      ∧ (let ids := upto (int (Int64 maxId)) in
         abi_BalanceOfBatch w
           ((λ _, HexToAddress w (ownerOf w address)) <$> ids) ids
         = Ok balances)
      ∧ (Z.to_nat (int (Int64 maxId)) < length balances)%nat.
Proof.
  rewrite GetOwned_result. simpl.
  destruct (abi_NextTokenIdToMint w) as [maxId|e].
  - destruct (abi_BalanceOfBatch w _ _) as [balances|e] eqn:Hbal.
    + set (ids := upto (int (Int64 maxId))) in *.
      assert (length ids = Z.to_nat (int (Int64 maxId))) as Hids
        by apply length_seqZ.
      destruct (decide (length balances ≤ length ids)%nat) as [Hlen|Hlen].
      * rewrite ownedLoop_Returns by (simpl; lia). split; [done|].
        intros (maxId' & balances' & [= <-] & Hbal' & Hlt).
        simpl in Hbal'. fold ids in Hbal'. rewrite Hbal in Hbal'.
        injection Hbal' as <-. lia.
      * rewrite ownedLoop_Panics by (simpl; lia). split; [|done].
        intros _. exists maxId, balances. repeat split; [done|lia].
    + split; [done|].
      intros (maxId' & balances' & [= <-] & Hbal' & _).
      simpl in Hbal'. congruence.
  - split; [done|]. by intros (maxId' & balances' & ? & _).
Qed.

(** X10.  When the count and the balance query are read and the response
    has no more entries than ids were asked for, [GetOwned] asks for the
    same owner at every id of [0..n), with as many owners as ids, and
    then resolves the ids of the response entries one after the other in
    ascending order, one [Get] per entry and nothing else; it returns at
    most one item per entry. *)
Theorem GetOwned_calls
    {Address Transaction Hash TransactOpts}
    (w : World Address Transaction Hash TransactOpts)
    (address : string) (maxId : Z) (balances : list Z) :
  let owner := HexToAddress w (ownerOf w address) in
  let ids := seqZ 0 (int (Int64 maxId)) in
  let owners := (λ _, owner) <$> ids in
  abi_NextTokenIdToMint w = Ok maxId →
  abi_BalanceOfBatch w owners ids = Ok balances →
  (length balances ≤ length ids)%nat →
  length owners = length ids
  ∧ owners = replicate (Z.to_nat (int (Int64 maxId))) owner
  ∧ trace (GetOwned w address)
    = CallNextTokenIdToMint :: CallBalanceOfBatch owners ids
      :: concat ((λ id, trace (Get w id)) <$> take (length balances) ids)
  ∧ ∃ items, result (GetOwned w address) = Returns (Ok items)
             ∧ (length items ≤ length balances)%nat.
Proof.
  intros owner ids owners Hcount Hbal Hlen. split; [apply length_fmap|].
  split; [|split].
  - unfold owners, ids. rewrite <-(length_seqZ 0 (int (Int64 maxId))).
    generalize (seqZ 0 (int (Int64 maxId))) as l.
    induction l as [|x l IH]; [done|]. csimpl. by rewrite IH.
  - rewrite GetOwned_trace. simpl. rewrite Hcount. unfold upto.
    fold owner; fold ids; fold owners. rewrite Hbal.
    rewrite ownedLoop_calls by (simpl; lia). rewrite drop_0.
    do 3 f_equal. apply list_fmap_ext. intros _ id Hid%list_elem_of_lookup_2.
    apply subseteq_take in Hid.
    by rewrite (upto_Int64 maxId id).
  - rewrite GetOwned_result. simpl. rewrite Hcount. unfold upto.
    fold owner; fold ids; fold owners. rewrite Hbal.
    rewrite ownedLoop_Returns by (simpl; lia).
    eexists. split; [done|]. simpl.
    etrans; [apply omap_length_le|].
    rewrite length_zip_with. lia.
Qed.

Lemma GetOwned_calls_witness :
  abi_NextTokenIdToMint Fixtures.flaky = Ok 3
  ∧ (length [5; 0; 7] ≤ length (seqZ 0 (int (Int64 3))))%nat
  ∧ trace (GetOwned Fixtures.flaky "0xB2")
    = CallNextTokenIdToMint
      :: CallBalanceOfBatch ((λ _, "0xB2") <$> seqZ 0 (int (Int64 3)))
           (seqZ 0 (int (Int64 3)))
      :: concat ((λ id, trace (Get Fixtures.flaky id))
                   <$> take (length [5; 0; 7]) (seqZ 0 (int (Int64 3)))).
Proof.
  split; [reflexivity|]. split; [vm_compute; lia|].
  apply (GetOwned_calls Fixtures.flaky "0xB2" 3 [5; 0; 7]).
  - reflexivity.
  - reflexivity.
  - vm_compute; lia.
Defined.

(** X11.  When the balance query answers with one balance per id, the
    editions inside the items of [GetOwned] are the list [GetAll]
    returns, in the same order: both resolve every id below the count
    and keep the successes.  The metadata helper is assumed to tag the
    metadata with the requested id. *)
Theorem GetOwned_lists_the_editions_of_GetAll
    {Address Transaction Hash TransactOpts}
    (w : World Address Transaction Hash TransactOpts)
    (address : string) (sched : list Z → list Z)
    (maxId : Z) (balances : list Z) :
  let ids := seqZ 0 (int (Int64 maxId)) in
  schedule sched → tags_id w →
  abi_NextTokenIdToMint w = Ok maxId →
  abi_BalanceOfBatch w
    ((λ _, HexToAddress w (ownerOf w address)) <$> ids) ids = Ok balances →
  length balances = length ids →
  ∃ items,
    result (GetOwned w address) = Returns (Ok items)
    ∧ result (GetAll w sched) = Ok (asEdition <$> items).
Proof.
  intros ids Hs Htag Hcount Hbal Hlen. eexists. split.
  - rewrite GetOwned_result. simpl. rewrite Hcount. unfold upto. fold ids.
    rewrite Hbal, ownedLoop_Returns by (simpl; lia). by rewrite drop_0.
  - rewrite GetAll_result, Hcount.
    rewrite fetchEditionsByTokenId_canonical, launch_upto by done.
    simpl. f_equal. symmetry. apply owned_editions; [done|].
    apply Forall_forall. intros id Hid. by apply (upto_Int64 maxId).
Qed.

Lemma GetOwned_lists_the_editions_of_GetAll_witness :
  schedule reverse ∧ tags_id Fixtures.flaky
  ∧ length [5; 0; 7] = length (seqZ 0 (int (Int64 3)))
  ∧ ∃ items,
      result (GetOwned Fixtures.flaky "0xB2") = Returns (Ok items)
      ∧ result (GetAll Fixtures.flaky reverse) = Ok (asEdition <$> items).
Proof.
  split; [exact schedule_reverse|]. split; [exact (fetchFrom_tags_id [1])|].
  split; [reflexivity|].
  apply (GetOwned_lists_the_editions_of_GetAll
           Fixtures.flaky "0xB2" reverse 3 [5; 0; 7]).
  - exact schedule_reverse.
  - exact (fetchFrom_tags_id [1]).
  - reflexivity.
  - reflexivity.
  - reflexivity.
Defined.

(** ** Transfer, Burn, SetApprovalForAll *)

(** X12.  When the binding accepts the call, [Transfer], [Burn] and
    [SetApprovalForAll] wait for the hash of exactly the transaction the
    binding returned and return what the wait returns, its error
    included; the submission and the wait are their only two calls, and
    the sender of a transfer and the account of a burn are the signer's
    address. *)
Theorem writes_wait_for_the_submitted_transaction
    {Address Transaction Hash TransactOpts}
    (w : World Address Transaction Hash TransactOpts) :
  (∀ to tokenId amount tx,
      abi_SafeTransferFrom w (getTxOptions w) (GetSignerAddress w)
        (HexToAddress w to) tokenId amount = Ok tx →
      Transfer w to tokenId amount
      = ([CallSafeTransferFrom (GetSignerAddress w) (HexToAddress w to)
            tokenId amount;
          CallAwaitTx (TxHash w tx)],
         awaitTx w (TxHash w tx)))
  ∧ (∀ tokenId amount tx,
      abi_Burn w (getTxOptions w) (GetSignerAddress w) tokenId amount = Ok tx →
      Burn w tokenId amount
      = ([CallBurn (GetSignerAddress w) tokenId amount;
          CallAwaitTx (TxHash w tx)],
         awaitTx w (TxHash w tx)))
  ∧ (∀ operator approved tx,
      abi_SetApprovalForAll w (getTxOptions w) (HexToAddress w operator)
        approved = Ok tx →
      SetApprovalForAll w operator approved
      = ([CallSetApprovalForAll (HexToAddress w operator) approved;
          CallAwaitTx (TxHash w tx)],
         awaitTx w (TxHash w tx))).
Proof.
  split; [|split].
  - intros to tokenId amount tx Htx.
    unfold Transfer, await, call, bind. by rewrite Htx.
  - intros tokenId amount tx Htx.
    unfold Burn, await, call, bind. by rewrite Htx.
  - intros operator approved tx Htx.
    unfold SetApprovalForAll, await, call, bind. by rewrite Htx.
Qed.

Lemma writes_wait_for_the_submitted_transaction_witness :
  Transfer MoreFixtures.accepting "0xB2" 0 1
  = ([CallSafeTransferFrom "0x00000000000000000000000000000000000000A1"
        "0xB2" 0 1;
      CallAwaitTx "tx:transfer"],
     Ok "tx:transfer")
  ∧ Burn MoreFixtures.accepting 0 1
    = ([CallBurn "0x00000000000000000000000000000000000000A1" 0 1;
        CallAwaitTx "tx:burn"],
       Err (External "timed out")).
Proof.
  pose proof (writes_wait_for_the_submitted_transaction MoreFixtures.accepting)
    as (Htransfer & Hburn & _).
  split.
  - apply (Htransfer "0xB2" 0 1 "tx:transfer"). reflexivity.
  - apply (Hburn 0 1 "tx:burn"). reflexivity.
Defined.

(** ** The ERC-721 module: keys and construction *)

(** X13.  After [SetPrivateKey] accepts a key, the signing function signs
    with the key and the module holds the address that
    [processPrivateKey] derived from it; a later call that is rejected
    leaves both in place, a later call that is accepted replaces both.
    The contract address of the module is never touched. *)
Theorem signer_uses_the_last_accepted_key
    {PrivateKey Address Transaction}
    (c : nftlabs.World PrivateKey Address Transaction)
    (sdk : nftlabs.erc721SdkModule PrivateKey Address) :
  (∀ key pKey publicAddress address transaction,
      nftlabs.processPrivateKey c key = inr (pKey, publicAddress) →
      let sdk' := (nftlabs.SetPrivateKey c sdk key).1 in
      nftlabs.getSigner c sdk' address transaction
      = ([nftlabs.CallChainID],
         nftlabs.SignTx c transaction (nftlabs.ChainID c) (Some pKey))
      ∧ nftlabs.signerAddress sdk' = publicAddress)
  ∧ (∀ key1 key2 pKey publicAddress cause address transaction,
      nftlabs.processPrivateKey c key1 = inr (pKey, publicAddress) →
      nftlabs.processPrivateKey c key2 = inl cause →
      let sdk' := (nftlabs.SetPrivateKey c
                     (nftlabs.SetPrivateKey c sdk key1).1 key2).1 in
      nftlabs.getSigner c sdk' address transaction
      = ([nftlabs.CallChainID],
         nftlabs.SignTx c transaction (nftlabs.ChainID c) (Some pKey))
      ∧ nftlabs.signerAddress sdk' = publicAddress)
  ∧ (∀ key1 key2 pKey publicAddress,
      nftlabs.processPrivateKey c key2 = inr (pKey, publicAddress) →
      (nftlabs.SetPrivateKey c (nftlabs.SetPrivateKey c sdk key1).1 key2).1
      = (nftlabs.SetPrivateKey c sdk key2).1)
  ∧ (∀ key,
      nftlabs.ModuleAddress (nftlabs.SetPrivateKey c sdk key).1
      = nftlabs.ModuleAddress sdk).
Proof.
  split; [|split; [|split]].
  - intros key pKey publicAddress address transaction Hkey.
    unfold nftlabs.SetPrivateKey, nftlabs.getSigner. by rewrite Hkey.
  - intros key1 key2 pKey publicAddress cause address transaction Hk1 Hk2.
    unfold nftlabs.SetPrivateKey, nftlabs.getSigner. by rewrite Hk2, Hk1.
  - intros key1 key2 pKey publicAddress Hk2.
    unfold nftlabs.SetPrivateKey. rewrite Hk2.
    by destruct (nftlabs.processPrivateKey c key1) as [?|[??]].
  - intros key. unfold nftlabs.SetPrivateKey.
    by destruct (nftlabs.processPrivateKey c key) as [?|[??]].
Qed.

Lemma signer_uses_the_last_accepted_key_witness :
  nftlabs.getSigner Fixtures.client
    (nftlabs.SetPrivateKey Fixtures.client
       (nftlabs.SetPrivateKey Fixtures.client Fixtures.keyless "c0ffee").1
       "xyz").1
    "0xA1" "tx"
  = ([nftlabs.CallChainID], nftlabs.Ok "tx|signed:c0ffee").
Proof.
  apply (proj1 (proj2 (signer_uses_the_last_accepted_key
                         Fixtures.client Fixtures.keyless))
           "c0ffee" "xyz" "c0ffee" "0xA1" "invalid hex character" "0xA1" "tx");
    reflexivity.
Defined.

(** X14.  The constructor leaves the caller's options with a non-empty
    gateway URL, also when the binding cannot be built: an empty URL is
    replaced by the Cloudflare gateway, any other URL and every other
    option is kept, and options that went through once are not changed by
    a second construction.  A constructed module holds those options and
    the gateway made from their URL. *)
Theorem newErc721SdkModule_options
    {PrivateKey Address Binding Gateway OtherOptions}
    (NewERC721 : Address → nftlabs.res Binding)
    (NewCloudflareGateway : string → Gateway)
    (HexToAddress : string → Address) (zeroAddress : Address)
    (address : string) (opt : erc721.SdkOptions OtherOptions) :
  let new := erc721.newErc721SdkModule (PrivateKey := PrivateKey)
               NewERC721 NewCloudflareGateway HexToAddress zeroAddress in
  let opt' := (new address opt).1 in
  erc721.IpfsGatewayUrl opt' ≠ EmptyString
  ∧ erc721.otherOptions opt' = erc721.otherOptions opt
  ∧ (erc721.IpfsGatewayUrl opt = EmptyString →
     erc721.IpfsGatewayUrl opt' = "https://cloudflare-ipfs.com/ipfs/")
  ∧ (erc721.IpfsGatewayUrl opt ≠ EmptyString → opt' = opt)
  ∧ (∀ address', (new address' opt').1 = opt')
  ∧ (∀ m, (new address opt).2 = nftlabs.Ok m →
       erc721.Options m = opt'
       ∧ erc721.gateway m = NewCloudflareGateway (erc721.IpfsGatewayUrl opt')).
Proof.
  intros new opt'.
  assert (∀ address0 opt0,
            (new address0 opt0).1
            = if bool_decide (erc721.IpfsGatewayUrl opt0 = EmptyString)
              then {| erc721.IpfsGatewayUrl := "https://cloudflare-ipfs.com/ipfs/";
                      erc721.otherOptions := erc721.otherOptions opt0 |}
              else opt0) as Hfst.
  { intros address0 opt0. unfold new, erc721.newErc721SdkModule.
    by destruct (NewERC721 (HexToAddress address0)). }
  assert (∀ m, (new address opt).2 = nftlabs.Ok m →
            erc721.Options m = opt'
            ∧ erc721.gateway m
              = NewCloudflareGateway (erc721.IpfsGatewayUrl opt')) as Hbuilt.
  { intros m. unfold opt'. rewrite Hfst.
    unfold new, erc721.newErc721SdkModule.
    destruct (NewERC721 (HexToAddress address)); [|done].
    simpl. by intros [= <-]. }
  assert (erc721.IpfsGatewayUrl opt' ≠ EmptyString) as Hurl.
  { unfold opt'. rewrite Hfst. by case_bool_decide. }
  repeat split; try done.
  - unfold opt'. rewrite Hfst. by case_bool_decide.
  - intros Hempty. unfold opt'. rewrite Hfst.
    by rewrite bool_decide_eq_true_2.
  - intros Hset. unfold opt'. rewrite Hfst.
    by rewrite bool_decide_eq_false_2.
  - intros address'. rewrite Hfst. by rewrite bool_decide_eq_false_2.
  - by apply Hbuilt.
  - by apply Hbuilt.
Qed.

(** X15.  The constructor fails exactly when the binding cannot be built
    at the parsed address, with the binding's error.  A module it returns
    holds the given address string and that binding and has no private
    key and the zero signer address, so its signing function hands no key
    to the transaction signer until [SetPrivateKey] accepts one. *)
Theorem newErc721SdkModule_is_keyless
    {PrivateKey Address Transaction Binding Gateway OtherOptions}
    (c : nftlabs.World PrivateKey Address Transaction)
    (NewERC721 : Address → nftlabs.res Binding)
    (NewCloudflareGateway : string → Gateway)
    (HexToAddress : string → Address) (zeroAddress : Address)
    (address : string) (opt : erc721.SdkOptions OtherOptions) :
  let built := (erc721.newErc721SdkModule
                  NewERC721 NewCloudflareGateway HexToAddress zeroAddress
                  address opt).2 in
  (∀ e, built = nftlabs.Err e ↔ NewERC721 (HexToAddress address) = nftlabs.Err e)
  ∧ (∀ m, built = nftlabs.Ok m →
       NewERC721 (HexToAddress address) = nftlabs.Ok (erc721.module m)
       ∧ erc721.signing m
         = {| nftlabs.ModuleAddress := address;
              nftlabs.privateKey := None;
              nftlabs.signerAddress := zeroAddress |}
       ∧ (∀ signFor transaction,
            nftlabs.getSigner c (erc721.signing m) signFor transaction
            = ([nftlabs.CallChainID],
               nftlabs.SignTx c transaction (nftlabs.ChainID c) None))
       ∧ (∀ key pKey publicAddress signFor transaction,
            nftlabs.processPrivateKey c key = inr (pKey, publicAddress) →
            nftlabs.getSigner c
              (nftlabs.SetPrivateKey c (erc721.signing m) key).1
              signFor transaction
            = ([nftlabs.CallChainID],
               nftlabs.SignTx c transaction (nftlabs.ChainID c) (Some pKey)))).
Proof.
  intros built. unfold built, erc721.newErc721SdkModule.
  destruct (NewERC721 (HexToAddress address)) as [module|e]; simpl.
  - split; [done|]. intros m [= <-]. simpl. repeat split.
    intros key pKey publicAddress signFor transaction Hkey.
    unfold nftlabs.SetPrivateKey, nftlabs.getSigner. by rewrite Hkey.
  - split; [|done]. intros e'. split; congruence.
Qed.

Lemma newErc721SdkModule_is_keyless_witness :
  (MoreFixtures.construct "bad" MoreFixtures.noGateway).2
  = nftlabs.Err (nftlabs.External "invalid ABI")
  ∧ ∃ m, (MoreFixtures.construct "0xC0" MoreFixtures.noGateway).2 = nftlabs.Ok m
         ∧ nftlabs.getSigner Fixtures.client (erc721.signing m) "0xA1" "tx"
           = ([nftlabs.CallChainID],
              nftlabs.Err (nftlabs.External "missing key")).
Proof.
  split.
  - apply (proj1 (newErc721SdkModule_is_keyless Fixtures.client
             MoreFixtures.bindAt (λ url, url) (λ s, s) "0x00"
             "bad" MoreFixtures.noGateway)).
    reflexivity.
  - eexists. split; [reflexivity|].
    eapply (proj2 (newErc721SdkModule_is_keyless Fixtures.client
              MoreFixtures.bindAt (λ url, url) (λ s, s) "0x00"
              "0xC0" MoreFixtures.noGateway)).
    reflexivity.
Defined.

Example construct_defaults_the_gateway :
  erc721.IpfsGatewayUrl (MoreFixtures.construct "bad" MoreFixtures.noGateway).1
  = "https://cloudflare-ipfs.com/ipfs/"
  ∧ (MoreFixtures.construct "0xC0" MoreFixtures.ownGateway).1
    = MoreFixtures.ownGateway.
Proof. split; reflexivity. Qed.
